(** * SkyHelper-Networth: the entry points of [src/index.js]

    A shallow embedding of [getNetworth], [getItemNetworth], [parsePrices]
    and [getPrices].  JavaScript values are primitives or references into a
    store of objects; an object is the list of its own enumerable data
    properties in enumeration order, so that [Object.keys(o)[0]] and the
    in-place rewriting of a caller-supplied catalogue can be stated as the
    source performs them.  Beside the objects the store holds the
    properties of the global object, which line 37 writes through its
    undeclared loop variable.  The collaborators that are [require]d from
    other modules ([axios.get], [parseItems], [calculateNetworth],
    [calculateItemNetworth]) are section variables.

    Scope of the value model: strings are ASCII, numbers are carried as
    integers (the code never computes with a price, it only tests
    truthiness and prints a status code), and every object in the store is
    an ordinary object inheriting from [Object.prototype] whose own
    properties are enumerable data properties, as [JSON.parse] builds
    them. *)

From stdpp Require Import base strings list gmap pretty.
From Stdlib Require Import ZArith Ascii String.

Local Open Scope string_scope.
Local Open Scope list_scope.

(** ** Values and the object store *)

Definition loc := positive.

Inductive value :=
| VUndefined
| VNull
| VBool (b : bool)
| VNum (n : Z)
| VNaN
| VStr (s : string)
| VRef (l : loc).

Arguments VNum n%_Z.
Arguments VRef l%_positive.

#[global] Instance value_eq_dec : EqDecision value.
Proof. solve_decision. Defined.

(** Own properties, in the order [Object.keys] enumerates them. *)
Abbreviation object := (list (string * value)).

Abbreviation heap := (gmap loc object).

(** The store: the objects that values refer to, and the properties of
    the global object, where an assignment to an undeclared variable
    lands in a module that is not in strict mode.  The global object is
    not among the objects a [value] can refer to. *)
Record store := Store { objects : heap; globals : gmap string value }.

#[global] Instance store_lookup : Lookup loc object store :=
  λ l σ, objects σ !! l.

#[global] Instance store_insert : Insert loc object store :=
  λ l o σ, Store (<[l := o]> (objects σ)) (globals σ).

#[global] Instance store_empty : Empty store := Store ∅ ∅.

(** A location that no object occupies yet. *)
Definition fresh_loc (σ : store) : loc := fresh (dom (objects σ)).

(** Errors that the code throws or meets.  [AxiosError status] is the
    rejection of [axios.get]; [status] is [err.response.status] when the
    server answered and [None] when there is no response at all. *)
Inductive exn :=
| TypeError
| NetworthError (message : string)
| PricesError (message : string)
| AxiosError (status : option Z).

#[global] Instance exn_eq_dec : EqDecision exn.
Proof. solve_decision. Defined.

(** ** The state-and-exception monad of the embedding *)

Definition M (A : Type) : Type := store → store * (exn + A).

#[global] Instance M_ret : MRet M := λ A a h, (h, inr a).

#[global] Instance M_bind : MBind M := λ A B f m h,
  match m h with
  | (h', inr a) => f a h'
  | (h', inl e) => (h', inl e)
  end.

Definition throw {A} (e : exn) : M A := λ h, (h, inl e).

Definition try_catch {A} (body : M A) (handler : exn → M A) : M A := λ h,
  match body h with
  | (h', inl e) => handler e h'
  | (h', inr a) => (h', inr a)
  end.

Fixpoint for_of {A} (xs : list A) (body : A → M unit) : M unit :=
  match xs with
  | [] => mret ()
  | x :: xs' => body x;; for_of xs' body
  end.

(** ** Strings *)

Definition lower_ascii (c : ascii) : ascii :=
  let n := nat_of_ascii c in
  if (65 <=? n)%nat && (n <=? 90)%nat then ascii_of_nat (n + 32) else c.

Fixpoint toLowerCase (s : string) : string :=
  match s with
  | EmptyString => EmptyString
  | String c s' => String (lower_ascii c) (toLowerCase s')
  end.

Definition digit_of (c : ascii) : option N :=
  let n := N_of_ascii c in
  if (48 <=? n)%N && (n <=? 57)%N then Some (n - 48)%N else None.

Fixpoint digits (acc : N) (s : string) : option N :=
  match s with
  | EmptyString => Some acc
  | String c s' =>
      match digit_of c with
      | Some d => digits (10 * acc + d)%N s'
      | None => None
      end
  end.

(** A property name is an array index when it is the canonical decimal
    form of an integer below 2^32 - 1; such names are enumerated first, in
    ascending order, whatever the order of creation. *)
Definition array_index (s : string) : option N :=
  match s with
  | EmptyString => None
  | String c s' =>
      if Ascii.eqb c "0" && negb (String.eqb s' "") then None
      else match digits 0 s with
           | Some n => if (n <? 2 ^ 32 - 1)%N then Some n else None
           | None => None
           end
  end.

Fixpoint chars (s : string) : list string :=
  match s with
  | EmptyString => []
  | String c s' => String c EmptyString :: chars s'
  end.

(** ** Own properties of one object *)

Fixpoint obj_lookup (k : string) (o : object) : option value :=
  match o with
  | [] => None
  | (k', v) :: o' => if decide (k = k') then Some v else obj_lookup k o'
  end.

Fixpoint obj_update (k : string) (v : value) (o : object) : object :=
  match o with
  | [] => []
  | (k', v') :: o' =>
      if decide (k = k') then (k, v) :: o' else (k', v') :: obj_update k v o'
  end.

Fixpoint obj_insert_index (n : N) (k : string) (v : value) (o : object) : object :=
  match o with
  | [] => [(k, v)]
  | (k', v') :: o' =>
      match array_index k' with
      | Some n' =>
          if (n' <? n)%N then (k', v') :: obj_insert_index n k v o'
          else (k, v) :: o
      | None => (k, v) :: o
      end
  end.

(** Creation of a new own property. *)
Definition obj_define (k : string) (v : value) (o : object) : object :=
  match array_index k with
  | Some n => obj_insert_index n k v o
  | None => o ++ [(k, v)]
  end.

(** The assignment [o[k] = v] on an ordinary object.  An existing own
    property keeps its place.  The name [__proto__] that is not an own
    property reaches the setter inherited from [Object.prototype], which
    creates no own property. *)
Definition obj_set (k : string) (v : value) (o : object) : object :=
  match obj_lookup k o with
  | Some _ => obj_update k v o
  | None => if decide (k = "__proto__") then o else obj_define k v o
  end.

(** ** Operations on values *)

Definition truthy (v : value) : bool :=
  match v with
  | VUndefined | VNull | VNaN => false
  | VBool b => b
  | VNum n => negb (n =? 0)%Z
  | VStr s => negb (String.eqb s "")
  | VRef _ => true
  end.

(** [!v] *)
Definition js_not (v : value) : value := VBool (negb (truthy v)).

(** [a || b] *)
Definition js_or (a b : value) : value := if truthy a then a else b.

(** [v instanceof Object] *)
Definition instanceof_Object (v : value) : bool :=
  match v with
  | VRef _ => true
  | _ => false
  end.

(** Conversion of a value to a string, as a template literal performs it. *)
Definition to_string (v : value) : string :=
  match v with
  | VUndefined => "undefined"
  | VNull => "null"
  | VBool b => if b then "true" else "false"
  | VNum n => pretty n
  | VNaN => "NaN"
  | VStr s => s
  | VRef _ => "[object Object]"
  end.

Definition props (h : store) (l : loc) : object := default [] (h !! l).

(** The own enumerable string-keyed properties of a value that is not
    [null] or [undefined]: those of the object it refers to, the indexed
    characters of a string, none for the other primitives. *)
Definition own_entries (h : store) (v : value) : list (string * value) :=
  match v with
  | VRef l => props h l
  | VStr s => zip (pretty <$> seq 0 (String.length s)) (VStr <$> chars s)
  | _ => []
  end.

Definition Object_entries (v : value) : M (list (string * value)) := λ h,
  match v with
  | VUndefined | VNull => (h, inl TypeError)
  | _ => (h, inr (own_entries h v))
  end.

Definition Object_keys (v : value) : M (list string) :=
  entries ← Object_entries v; mret (entries.*1).

(** [v[k]].  The names the code reads that are not own properties
    ([undefined], [price], [tag], [exp], [coin_purse], [prices],
    [onlyNetworth]) are defined by no built-in prototype, so a miss is
    [undefined]. *)
Definition get_prop (v : value) (k : string) : M value := λ h,
  match v with
  | VUndefined | VNull => (h, inl TypeError)
  | VStr s =>
      (h, inr (if decide (k = "length") then VNum (Z.of_nat (String.length s))
               else default VUndefined (obj_lookup k (own_entries h v))))
  | _ => (h, inr (default VUndefined (obj_lookup k (own_entries h v))))
  end.

(** [v?.k] *)
Definition opt_get (v : value) (k : string) : M value :=
  match v with
  | VUndefined | VNull => mret VUndefined
  | _ => get_prop v k
  end.

(** [v[k] = x].  The module is not in strict mode: an assignment to a
    property of a primitive is silently dropped. *)
Definition set_prop (v : value) (k : string) (x : value) : M unit := λ h,
  match v with
  | VUndefined | VNull => (h, inl TypeError)
  | VRef l =>
      match h !! l with
      | Some o => (<[l := obj_set k x o]> h, inr ())
      | None => (h, inr ())
      end
  | _ => (h, inr ())
  end.

(** [{}] *)
Definition new_object : M value := λ h,
  let l := fresh_loc h in (<[l := []]> h, inr (VRef l)).

(** [x = v] for a variable [x] that no scope declares: the assignment
    creates or overwrites the property [x] of the global object. *)
Definition set_global (x : string) (v : value) : M unit := λ h,
  (Store (objects h) (<[x := v]> (globals h)), inr ()).

(** [Object.keys(v)[0]] is [undefined] for an empty array of keys; used as
    a property name, [undefined] is the name ["undefined"]. *)
Definition prop_key (k : option string) : string := default "undefined" k.

(** [k.toLowerCase()] for [k] that may be [undefined]. *)
Definition call_toLowerCase (k : option string) : M string :=
  match k with
  | Some s => mret (toLowerCase s)
  | None => throw TypeError
  end.

(** ** The functions of [src/index.js] *)

Section Index.
(** [(await axios.get(url)).data]: the body of the answer, or the
    rejection of the request. *)
Variable axios_get : M value.
(** [parseItems], [calculateNetworth] and [calculateItemNetworth] of the
    helper modules. *)
Variable parseItems : value → M value.
Variable calculateNetworth : value → value → value → value → value → M value.
Variable calculateItemNetworth : value → value → M value.

(** [err?.response?.status]: only a rejection of [axios.get] carries a
    response. *)
Definition response_status (err : exn) : value :=
  match err with
  | AxiosError (Some status) => VNum status
  | _ => VUndefined
  end.

(** The [try] block of [getPrices]. *)
Definition getPrices_try : M value :=
  data ← axios_get;
  keys ← Object_keys data;
  let firstKey := head keys in
  first ← get_prop data (prop_key firstKey);
  if instanceof_Object first then
    prices ← new_object;
    entries ← Object_entries data;
    for_of entries (λ '(item, priceObject),
      price ← get_prop priceObject "price";
      set_prop prices (toLowerCase item) price);;
    mret prices
  else
    lowered ← call_toLowerCase firstKey;
    if bool_decide (firstKey ≠ Some lowered) then
      prices ← new_object;
      entries ← Object_entries data;
      for_of entries (λ '(item, price),
        set_prop prices (toLowerCase item) price);;
      mret prices
    else mret data.

(** The [catch] block of [getPrices]. *)
Definition getPrices_catch (err : exn) : M value :=
  throw (PricesError ("Failed to retrieve prices with status code "
                      +:+ to_string (js_or (response_status err) (VStr "Unknown")))).

Definition getPrices : M value := try_catch getPrices_try getPrices_catch.

Definition parsePrices (prices : value) : M value :=
  (if truthy prices then
     keys ← Object_keys prices;
     let firstKey := head keys in
     first ← get_prop prices (prop_key firstKey);
     if instanceof_Object (js_not prices) || instanceof_Object first then
       throw (NetworthError "Invalid prices data provided")
     else
       lowered ← call_toLowerCase firstKey;
       if bool_decide (firstKey ≠ Some lowered) then
         ids ← Object_keys prices;
         for_of ids (λ id,
           set_global "id" (VStr id);;
           x ← get_prop prices id;
           set_prop prices (toLowerCase id) x)
       else mret ()
   else mret ());;
  if truthy prices then mret prices else getPrices.

Definition getItemNetworth (item options : value) : M value :=
  tag ← opt_get item "tag";
  rejected ← (if negb (truthy tag) then
                exp ← opt_get item "exp"; mret (negb (truthy exp))
              else mret false);
  (if rejected : bool then throw (NetworthError "Invalid item provided")
   else mret ());;
  supplied ← opt_get options "prices";
  prices ← parsePrices supplied;
  calculateItemNetworth item prices.

Definition getNetworth (profileData bankBalance options : value) : M value :=
  purse ← get_prop profileData "coin_purse";
  supplied ← opt_get options "prices";
  prices ← parsePrices supplied;
  items ← parseItems profileData;
  onlyNetworth ← opt_get options "onlyNetworth";
  calculateNetworth items purse bankBalance prices onlyNetworth.
End Index.

(** ** Specification-level views of the two loops

    [lower_loop] is the effect of line 37 on the object it rewrites;
    [rebuild] is the effect of the loops of [getPrices] on the fresh
    object they fill. *)

Definition obj_get (k : string) (o : object) : value :=
  default VUndefined (obj_lookup k o).

Definition lower_loop (ids : list string) (o : object) : object :=
  foldl (λ acc id, obj_set (toLowerCase id) (obj_get id acc) acc) o ids.

Definition rebuild (entries : list (string * value)) (acc : object) : object :=
  foldl (λ acc kv, obj_set (toLowerCase kv.1) kv.2 acc) acc entries.

Arguments lower_loop : simpl never.
Arguments rebuild : simpl never.

(** What line 37 leaves in the global variable [id]: the last key it
    iterated over. *)
Definition assigned_id (ids : list string) (g : gmap string value)
  : gmap string value :=
  match last ids with
  | Some id => <["id" := VStr id]> g
  | None => g
  end.

Definition leak_id (ids : list string) (h : store) : store :=
  Store (objects h) (assigned_id ids (globals h)).

(** The entries that line 37 appends: one per key that is not lowercase. *)
Definition lowered_entries (o : object) : object :=
  omap (λ kv, if decide (toLowerCase kv.1 = kv.1) then None
              else Some (toLowerCase kv.1, kv.2)) o.

(** [v?.k] as a value: reading never changes the store. *)
Definition field (h : store) (v : value) (k : string) : value :=
  match v with
  | VStr s =>
      if decide (k = "length") then VNum (Z.of_nat (String.length s))
      else obj_get k (own_entries h v)
  | _ => obj_get k (own_entries h v)
  end.

Definition is_nullish (v : value) : bool :=
  match v with
  | VUndefined | VNull => true
  | _ => false
  end.

(** Keys that stay distinct when lowercased, none of them turning into
    the name [__proto__]. *)
Definition collision_free (o : object) : Prop :=
  NoDup (toLowerCase <$> o.*1) ∧
  Forall (λ k, toLowerCase k ≠ "__proto__") o.*1.

#[global] Instance collision_free_dec o : Decision (collision_free o).
Proof. unfold collision_free. apply _. Defined.

(** The price that the first loop of [getPrices] extracts from an entry. *)
Definition price_entry (h : store) (kv : string * value) : string * value :=
  (kv.1, field h kv.2 "price").

(** The value stored under the first enumerated key. *)
Definition first_value (h : store) (v : value) : value :=
  match own_entries h v with
  | [] => VUndefined
  | (_, x) :: _ => x
  end.

(** A reference that points into the store. *)
Definition allocated (h : store) (v : value) : Prop :=
  match v with
  | VRef l => is_Some (h !! l)
  | _ => True
  end.

Definition is_number (v : value) : bool :=
  match v with
  | VNum _ | VNaN => true
  | _ => false
  end.

(** A canonical catalogue: non-empty, every key lowercase, every value a
    bare number. *)
Definition canonical (o : object) : bool :=
  negb (bool_decide (o = [])) &&
  forallb (λ kv, bool_decide (toLowerCase kv.1 = kv.1) && is_number kv.2) o.

Definition invalid_prices : exn := NetworthError "Invalid prices data provided".
Definition invalid_item : exn := NetworthError "Invalid item provided".

(** A fetcher without network: the request is rejected without answer. *)
Definition no_network : M value := throw (AxiosError None).

(** Collaborators that answer [null] and touch nothing. *)
Definition no_valuation (item prices : value) : M value := mret VNull.
Definition no_items (profileData : value) : M value := mret VNull.
Definition no_total (items purse bankBalance prices onlyNetworth : value)
  : M value := mret VNull.

(** Every value found in the object descends from an original entry with
    the same lowercase key. *)
Definition descends_from (orig cur : object) : Prop :=
  ∀ key v, obj_lookup key cur = Some v →
    ∃ k0, (k0, v) ∈ orig ∧ toLowerCase k0 = toLowerCase key.

(** A request answered with [data], and a request rejected with 404. *)
Definition answered (data : value) : M value := mret data.
Definition not_found : M value := throw (AxiosError (Some 404%Z)).

(** * Properties *)

(** Symbolic execution: open the binds, then rewrite with the equation of
    the operation that runs next and reduce the [match] on its result. *)
Ltac mopen := unfold mbind, M_bind, mret, M_ret, throw.
Ltac mred := cbv beta iota zeta.

(** ** Strings *)

Lemma lower_ascii_idemp c : lower_ascii (lower_ascii c) = lower_ascii c.
Proof. by destruct c as [[] [] [] [] [] [] [] []]. Qed.

Lemma toLowerCase_idemp s : toLowerCase (toLowerCase s) = toLowerCase s.
Proof. induction s as [|c s IH]; simpl; [done|]. by rewrite lower_ascii_idemp, IH. Qed.

Lemma digit_of_lower c d : digit_of (lower_ascii c) = Some d → lower_ascii c = c.
Proof. destruct c as [[] [] [] [] [] [] [] []]; vm_compute; congruence. Qed.

Lemma digits_lower s : ∀ acc n,
  digits acc (toLowerCase s) = Some n → toLowerCase s = s.
Proof.
  induction s as [|c s IH]; intros acc n; simpl; [done|].
  destruct (digit_of (lower_ascii c)) as [d|] eqn:Hd; [|done].
  intros Hn. apply digit_of_lower in Hd. rewrite Hd. f_equal. eauto.
Qed.

Lemma array_index_lower s n :
  array_index (toLowerCase s) = Some n → toLowerCase s = s.
Proof.
  unfold array_index. destruct (toLowerCase s) as [|c t] eqn:Hs; [done|].
  destruct (_ && _); [done|].
  destruct (digits 0 (String c t)) as [m|] eqn:Hm; [|done].
  intros _. rewrite <- Hs in Hm. apply digits_lower in Hm. congruence.
Qed.

Lemma array_index_not_lower s :
  toLowerCase s ≠ s → array_index (toLowerCase s) = None.
Proof.
  intros Hs. destruct (array_index (toLowerCase s)) eqn:E; [|done].
  by apply array_index_lower in E.
Qed.

(** ** Own properties *)

Lemma obj_lookup_app k (o1 o2 : object) :
  obj_lookup k (o1 ++ o2) =
    match obj_lookup k o1 with Some v => Some v | None => obj_lookup k o2 end.
Proof.
  induction o1 as [|[k' v'] o1 IH]; simpl; [done|]. by case_decide.
Qed.

Lemma obj_lookup_None k (o : object) : obj_lookup k o = None ↔ k ∉ o.*1.
Proof.
  induction o as [|[k' v'] o IH]; simpl.
  - split; [intros _; apply not_elem_of_nil|done].
  - rewrite not_elem_of_cons. case_decide as Hk; [|by rewrite IH; intuition].
    split; [done|]. by intros [? _].
Qed.

Lemma obj_lookup_Some_elem k v (o : object) :
  obj_lookup k o = Some v → (k, v) ∈ o.
Proof.
  induction o as [|[k' v'] o IH]; simpl; [done|].
  case_decide; intros; simplify_eq; [left|right; auto].
Qed.

Lemma obj_lookup_elem k v (o : object) :
  NoDup o.*1 → (k, v) ∈ o → obj_lookup k o = Some v.
Proof.
  induction o as [|[k' v'] o IH]; simpl; intros Hnd Hin.
  - by apply elem_of_nil in Hin.
  - apply NoDup_cons in Hnd as [Hk Hnd]. apply elem_of_cons in Hin as [Heq|Hin].
    + simplify_eq. by rewrite decide_True.
    + case_decide; [|auto]. subst k'. destruct Hk.
      by apply (list_elem_of_fmap_2 fst) in Hin.
Qed.

Lemma obj_lookup_update_eq k v (o : object) :
  is_Some (obj_lookup k o) → obj_lookup k (obj_update k v o) = Some v.
Proof.
  induction o as [|[k0 v0] o IH]; simpl; [by intros [? ?]|].
  case_decide; simpl; intros Hs; [by rewrite decide_True|].
  rewrite decide_False by done. auto.
Qed.

Lemma obj_lookup_update_ne k k' v (o : object) :
  k' ≠ k → obj_lookup k' (obj_update k v o) = obj_lookup k' o.
Proof.
  intros Hne. induction o as [|[k0 v0] o IH]; simpl; [done|].
  destruct (decide (k = k0)) as [->|]; simpl.
  - by rewrite !decide_False.
  - by rewrite IH.
Qed.

Lemma obj_update_id k v (o : object) :
  obj_lookup k o = Some v → obj_update k v o = o.
Proof.
  induction o as [|[k0 v0] o IH]; simpl; [done|].
  case_decide; intros; simplify_eq; [done|]. by rewrite IH.
Qed.

Lemma obj_update_keys k v (o : object) : (obj_update k v o).*1 = o.*1.
Proof.
  induction o as [|[k0 v0] o IH]; [done|]. simpl.
  case_decide; [by subst|]. by rewrite !fmap_cons, IH.
Qed.

Lemma obj_lookup_insert_index n k k' v (o : object) :
  obj_lookup k o = None →
  obj_lookup k' (obj_insert_index n k v o) =
    if decide (k' = k) then Some v else obj_lookup k' o.
Proof.
  induction o as [|[k0 v0] o IH]; simpl; [done|].
  destruct (decide (k = k0)) as [->|Hne]; [done|]. intros Hk.
  destruct (array_index k0) as [n'|]; [destruct (N.ltb n' n)|]; simpl;
    try done.
  rewrite IH by done.
  destruct (decide (k' = k0)) as [->|]; [by rewrite decide_False|done].
Qed.

Lemma obj_lookup_define k k' v (o : object) :
  obj_lookup k o = None →
  obj_lookup k' (obj_define k v o) =
    if decide (k' = k) then Some v else obj_lookup k' o.
Proof.
  intros Hk. unfold obj_define. destruct (array_index k).
  - by apply obj_lookup_insert_index.
  - rewrite obj_lookup_app. simpl. case_decide; subst.
    + by rewrite Hk.
    + by destruct (obj_lookup k' o).
Qed.

(** Reading back what [o[k] = v] wrote. *)
Lemma obj_lookup_set_eq k v (o : object) :
  k ≠ "__proto__" ∨ is_Some (obj_lookup k o) →
  obj_lookup k (obj_set k v o) = Some v.
Proof.
  intros Hk. unfold obj_set. destruct (obj_lookup k o) eqn:E.
  - apply obj_lookup_update_eq. by rewrite E.
  - destruct Hk as [Hk|[? ?]]; [|done].
    rewrite decide_False by done. rewrite obj_lookup_define by done.
    by rewrite decide_True.
Qed.

(** [o[k] = v] leaves the other names alone. *)
Lemma obj_lookup_set_ne k k' v (o : object) :
  k' ≠ k → obj_lookup k' (obj_set k v o) = obj_lookup k' o.
Proof.
  intros Hne. unfold obj_set. destruct (obj_lookup k o) eqn:E.
  - by apply obj_lookup_update_ne.
  - case_decide; [done|]. rewrite obj_lookup_define by done.
    by rewrite decide_False.
Qed.

(** Writing the value that is already there changes nothing. *)
Lemma obj_set_id k v (o : object) :
  obj_lookup k o = Some v → obj_set k v o = o.
Proof. intros Hk. unfold obj_set. rewrite Hk. by apply obj_update_id. Qed.

(** A new name that is not an array index goes to the end. *)
Lemma obj_set_new k v (o : object) :
  obj_lookup k o = None → k ≠ "__proto__" → array_index k = None →
  obj_set k v o = (o ++ [(k, v)]).
Proof.
  intros Hk Hp Hi. unfold obj_set, obj_define.
  by rewrite Hk, Hi, decide_False.
Qed.

Lemma obj_set_is_Some k k' v (o : object) :
  is_Some (obj_lookup k' o) → is_Some (obj_lookup k' (obj_set k v o)).
Proof.
  intros Hs. destruct (decide (k' = k)) as [->|Hne].
  - rewrite obj_lookup_set_eq; eauto.
  - by rewrite obj_lookup_set_ne.
Qed.

(** ** The loop of line 37 on one object *)

Lemma lower_loop_cons id ids (o : object) :
  lower_loop (id :: ids) o
  = lower_loop ids (obj_set (toLowerCase id) (obj_get id o) o).
Proof. done. Qed.

Lemma rebuild_cons k v entries (acc : object) :
  rebuild ((k, v) :: entries) acc
  = rebuild entries (obj_set (toLowerCase k) v acc).
Proof. done. Qed.

Lemma lower_loop_is_Some ids : ∀ (o : object) k,
  is_Some (obj_lookup k o) → is_Some (obj_lookup k (lower_loop ids o)).
Proof.
  induction ids as [|id ids IH]; intros o k Hk; [done|].
  rewrite lower_loop_cons. apply IH. by apply obj_set_is_Some.
Qed.

Lemma lowered_entries_keys k (o : object) :
  k ∈ (lowered_entries o).*1 →
  ∃ k0, k0 ∈ o.*1 ∧ toLowerCase k0 = k ∧ k0 ≠ k.
Proof.
  intros Hin. apply list_elem_of_fmap in Hin as [[k1 v1] [-> Hin]].
  apply list_elem_of_omap in Hin as [[k0 v0] [Hin Hk]]. simpl in Hk.
  case_decide as Hd; simplify_eq. exists k0.
  split_and!; [|done|by intros E; apply Hd].
  by apply (list_elem_of_fmap_2 fst) in Hin.
Qed.

Lemma NoDup_fmap_elem_inj {A B} (f : A → B) (l : list A) x y :
  NoDup (f <$> l) → x ∈ l → y ∈ l → f x = f y → x = y.
Proof.
  induction l as [|a l IH]; intros Hnd Hx Hy Hf.
  - by apply elem_of_nil in Hx.
  - rewrite fmap_cons in Hnd. apply NoDup_cons in Hnd as [Ha Hnd].
    apply elem_of_cons in Hx as [->|Hx]; apply elem_of_cons in Hy as [->|Hy];
      auto.
    + destruct Ha. rewrite Hf. by apply list_elem_of_fmap_2.
    + destruct Ha. rewrite <- Hf. by apply list_elem_of_fmap_2.
Qed.

Lemma lower_loop_step (o : object) : collision_free o →
  ∀ rest done, o = (done ++ rest) →
  lower_loop rest.*1 (o ++ lowered_entries done)
  = (o ++ lowered_entries o).
Proof.
  intros [Hnd Hproto]. rewrite Forall_forall in Hproto.
  assert (NoDup o.*1) as Hkeys by by apply NoDup_fmap_1 in Hnd.
  induction rest as [|[id v] rest IH]; intros done Ho.
  - rewrite app_nil_r in Ho. by subst.
  - rewrite fmap_cons, lower_loop_cons. cbn [fst].
    assert (id ∈ o.*1) as Hid.
    { rewrite Ho, fmap_app, fmap_cons. apply elem_of_app. right. by left. }
    assert (obj_lookup id o = Some v) as Hv.
    { apply obj_lookup_elem; [done|]. rewrite Ho. apply elem_of_app. right. by left. }
    assert (obj_get id (o ++ lowered_entries done) = v) as ->.
    { unfold obj_get. by rewrite obj_lookup_app, Hv. }
    specialize (IH (done ++ [(id, v)])).
    rewrite <- (assoc_L (++)) in IH. specialize (IH Ho).
    unfold lowered_entries in IH. rewrite omap_app in IH.
    fold (lowered_entries done) in IH. cbn [omap list_omap fst snd] in IH.
    destruct (decide (toLowerCase id = id)) as [Hl|Hl].
    + rewrite Hl, obj_set_id by by rewrite obj_lookup_app, Hv.
      by rewrite app_nil_r in IH.
    + rewrite obj_set_new; [by rewrite <- (assoc_L (++))| |by auto|
                            by apply array_index_not_lower].
      apply obj_lookup_None. rewrite fmap_app, elem_of_app.
      intros [Hin|Hin].
      * apply Hl. symmetry.
        apply (NoDup_fmap_elem_inj toLowerCase o.*1); auto.
        by rewrite toLowerCase_idemp.
      * apply lowered_entries_keys in Hin as (k0 & Hk0 & Hlow & _).
        assert (k0 = id) as ->.
        { apply (NoDup_fmap_elem_inj toLowerCase o.*1); auto.
          rewrite Ho, fmap_app. apply elem_of_app. by left. }
        rewrite Ho, fmap_app, fmap_cons in Hkeys.
        apply NoDup_app in Hkeys as (_ & Hdis & _).
        apply (Hdis id Hk0). by left.
Qed.

(** Without collisions line 37 appends, in order, one lowercased entry
    per key that is not lowercase, and touches nothing else. *)
Lemma lower_loop_exact (o : object) :
  collision_free o → lower_loop o.*1 o = (o ++ lowered_entries o).
Proof.
  intros Hcf. pose proof (lower_loop_step o Hcf o [] eq_refl) as H.
  by rewrite app_nil_r in H.
Qed.

Lemma lowered_entries_lookup k v (o : object) :
  (k, v) ∈ o → toLowerCase k ≠ k → NoDup (toLowerCase <$> o.*1) →
  obj_lookup (toLowerCase k) (lowered_entries o) = Some v.
Proof.
  induction o as [|[k0 v0] o IH]; intros Hin Hl Hnd.
  - by apply elem_of_nil in Hin.
  - rewrite !fmap_cons in Hnd. apply NoDup_cons in Hnd as [Hk0 Hnd].
    cbn [lowered_entries omap list_omap fst snd].
    fold (lowered_entries o).
    apply elem_of_cons in Hin as [Heq|Hin].
    + simplify_eq. rewrite decide_False by done. simpl.
      by rewrite decide_True.
    + assert (toLowerCase k ≠ toLowerCase k0) as Hne.
      { intros E. apply Hk0. simpl. rewrite <- E.
        apply list_elem_of_fmap_2. by apply (list_elem_of_fmap_2 fst) in Hin. }
      case_decide; [by auto|]. simpl. rewrite decide_False by done. auto.
Qed.

(** What a lookup finds after line 37 ran over a collision-free object:
    every original entry, and the same value under the lowercased key. *)
Lemma lower_loop_lookup (o : object) k v :
  collision_free o → (k, v) ∈ o →
  obj_lookup k (lower_loop o.*1 o) = Some v ∧
  obj_lookup (toLowerCase k) (lower_loop o.*1 o) = Some v.
Proof.
  intros Hcf Hin. rewrite lower_loop_exact by done.
  destruct Hcf as [Hnd _].
  assert (obj_lookup k o = Some v) as Hk.
  { apply obj_lookup_elem; [by apply NoDup_fmap_1 in Hnd|done]. }
  rewrite !obj_lookup_app, Hk. split; [done|].
  destruct (decide (toLowerCase k = k)) as [->|Hl]; [by rewrite Hk|].
  destruct (obj_lookup (toLowerCase k) o) as [v'|] eqn:E.
  - apply obj_lookup_Some_elem in E. destruct Hl. symmetry.
    apply (NoDup_fmap_elem_inj toLowerCase o.*1); auto.
    + by apply (list_elem_of_fmap_2 fst) in Hin.
    + by apply (list_elem_of_fmap_2 fst) in E.
    + by rewrite toLowerCase_idemp.
  - by apply lowered_entries_lookup.
Qed.

(** ** The loops of [getPrices] on the fresh object *)

Lemma rebuild_lookup_other entries : ∀ (acc : object) k,
  k ∉ toLowerCase <$> entries.*1 →
  obj_lookup k (rebuild entries acc) = obj_lookup k acc.
Proof.
  induction entries as [|[k0 v0] entries IH]; intros acc k Hk; [done|].
  rewrite !fmap_cons, not_elem_of_cons in Hk. destruct Hk as [Hne Hk].
  rewrite rebuild_cons, IH by done. by apply obj_lookup_set_ne.
Qed.

Lemma rebuild_lookup entries : ∀ (acc : object) k v,
  NoDup (toLowerCase <$> entries.*1) →
  (k, v) ∈ entries → toLowerCase k ≠ "__proto__" →
  obj_lookup (toLowerCase k) (rebuild entries acc) = Some v.
Proof.
  induction entries as [|[k0 v0] entries IH]; intros acc k v Hnd Hin Hp.
  - by apply elem_of_nil in Hin.
  - rewrite !fmap_cons in Hnd. apply NoDup_cons in Hnd as [Hk0 Hnd].
    rewrite rebuild_cons.
    apply elem_of_cons in Hin as [Heq|Hin]; [|by apply IH].
    simplify_eq. rewrite rebuild_lookup_other by done.
    apply obj_lookup_set_eq. by left.
Qed.

(** ** Where the entries of a written object come from *)

Lemma elem_of_obj_update k v (o : object) kv :
  kv ∈ obj_update k v o → kv = (k, v) ∨ kv ∈ o.
Proof.
  induction o as [|[k0 v0] o IH]; simpl; [by right|].
  case_decide.
  - rewrite !elem_of_cons. intros [->|?]; auto.
  - rewrite !elem_of_cons. intros [->|?]; [auto|].
    destruct IH as [?|?]; auto.
Qed.

Lemma elem_of_obj_insert_index n k v (o : object) kv :
  kv ∈ obj_insert_index n k v o → kv = (k, v) ∨ kv ∈ o.
Proof.
  induction o as [|[k0 v0] o IH]; simpl.
  - rewrite elem_of_cons. intros [->|?]; auto.
  - destruct (array_index k0) as [n'|]; [destruct (n' <? n)%N|];
      rewrite !elem_of_cons; try (intros [->|[->|?]]; by auto).
    intros [->|?]; [auto|]. destruct IH as [?|?]; auto.
Qed.

Lemma elem_of_obj_set k v (o : object) kv :
  kv ∈ obj_set k v o → kv = (k, v) ∨ kv ∈ o.
Proof.
  unfold obj_set, obj_define. destruct (obj_lookup k o).
  - apply elem_of_obj_update.
  - case_decide; [by right|]. destruct (array_index k).
    + apply elem_of_obj_insert_index.
    + rewrite elem_of_app, list_elem_of_singleton. intros [?| ->]; auto.
Qed.

(** Every entry of a rebuilt object is an entry it started with or the
    lowercased form of an entry that was copied into it. *)
Lemma elem_of_rebuild entries : ∀ (acc : object) kv,
  kv ∈ rebuild entries acc →
  kv ∈ acc ∨ ∃ k v, (k, v) ∈ entries ∧ kv = (toLowerCase k, v).
Proof.
  induction entries as [|[k v] entries IH]; intros acc kv; [by left|].
  rewrite rebuild_cons. intros Hin.
  apply IH in Hin as [Hin|(k' & v' & Hin & ->)].
  - apply elem_of_obj_set in Hin as [->|Hin]; [|by left].
    right. exists k, v. split; [by left|done].
  - right. exists k', v'. split; [by right|done].
Qed.

Lemma rebuild_is_Some entries : ∀ (acc : object) key,
  is_Some (obj_lookup key acc) → is_Some (obj_lookup key (rebuild entries acc)).
Proof.
  induction entries as [|[k v] entries IH]; intros acc key Hk; [done|].
  rewrite rebuild_cons. apply IH. by apply obj_set_is_Some.
Qed.

Lemma rebuild_app entries1 entries2 (acc : object) :
  rebuild (entries1 ++ entries2) acc = rebuild entries2 (rebuild entries1 acc).
Proof. unfold rebuild. apply foldl_app. Qed.

(** ** Running the loops on the store *)

Lemma for_of_nil {A} (body : A → M unit) h : for_of [] body h = (h, inr ()).
Proof. done. Qed.

Lemma for_of_cons {A} x xs (body : A → M unit) h :
  for_of (x :: xs) body h =
    match body x h with
    | (h', inr _) => for_of xs body h'
    | (h', inl e) => (h', inl e)
    end.
Proof. done. Qed.

Lemma Object_entries_run (h : store) v :
  is_nullish v = false → Object_entries v h = (h, inr (own_entries h v)).
Proof. by destruct v. Qed.

Lemma Object_keys_run (h : store) v :
  is_nullish v = false → Object_keys v h = (h, inr (own_entries h v).*1).
Proof. by destruct v. Qed.

Lemma props_lookup (h : store) l o : h !! l = Some o → props h l = o.
Proof. intros H. unfold props. by rewrite H. Qed.

(** The store as a map from locations to objects. *)
Lemma store_lookup_insert_eq (h : store) l o : <[l := o]> h !! l = Some o.
Proof. unfold lookup, store_lookup. simpl. apply lookup_insert_eq. Qed.

Lemma store_lookup_insert_ne (h : store) l l' o :
  l ≠ l' → <[l := o]> h !! l' = h !! l'.
Proof.
  intros Hne. unfold lookup, store_lookup. simpl. by apply lookup_insert_ne.
Qed.

Lemma store_insert_insert_eq (h : store) l o o' :
  <[l := o']> (<[l := o]> h) = <[l := o']> h.
Proof. unfold insert, store_insert. simpl. f_equal. apply insert_insert_eq. Qed.

Lemma store_insert_id (h : store) l o : h !! l = Some o → <[l := o]> h = h.
Proof.
  intros Hl. destruct h as [m g]. unfold insert, store_insert. simpl.
  f_equal. by apply insert_id.
Qed.

Lemma set_prop_ref (h : store) l o k x :
  h !! l = Some o →
  set_prop (VRef l) k x h = (<[l := obj_set k x o]> h, inr ()).
Proof. intros Hl. unfold set_prop. by rewrite Hl. Qed.

Lemma field_insert_ne (h : store) l o v k :
  v ≠ VRef l → field (<[l := o]> h) v k = field h v k.
Proof.
  intros Hv. destruct v as [| | | | | |l']; try done.
  unfold field, own_entries, props. rewrite store_lookup_insert_ne; [done|congruence].
Qed.

Lemma get_prop_field (h : store) v k :
  is_nullish v = false → get_prop v k h = (h, inr (field h v k)).
Proof. by destruct v. Qed.

Lemma opt_get_field (h : store) v k : opt_get v k h = (h, inr (field h v k)).
Proof. by destruct v. Qed.

Lemma assigned_id_cons id ids (g : gmap string value) :
  assigned_id ids (<["id" := VStr id]> g) = assigned_id (id :: ids) g.
Proof.
  unfold assigned_id. destruct ids as [|id' ids]; [done|].
  change (last (id :: id' :: ids)) with (last (id' :: ids)).
  destruct (last (id' :: ids)) as [k|] eqn:E.
  - apply insert_insert_eq.
  - by apply last_None in E.
Qed.

Lemma leak_id_insert ids (h : store) l o :
  leak_id ids (<[l := o]> h) = <[l := o]> (leak_id ids h).
Proof. done. Qed.


(** Line 37 on the store: the object is rewritten in place and the
    global variable [id] is left holding the last key. *)
Lemma for_of_lower (l : loc) ids : ∀ (h : store) o,
  h !! l = Some o →
  for_of ids (λ id, set_global "id" (VStr id);;
                    x ← get_prop (VRef l) id;
                    set_prop (VRef l) (toLowerCase id) x) h
  = (leak_id ids (<[l := lower_loop ids o]> h), inr ()).
Proof.
  induction ids as [|id ids IH]; intros h o Hl.
  - rewrite for_of_nil, store_insert_id by done. by destruct h.
  - rewrite for_of_cons. unfold mbind at 1, M_bind at 1.
    unfold set_global at 1. mred.
    unfold mbind at 1, M_bind at 1.
    rewrite get_prop_field by done. mred.
    rewrite (set_prop_ref _ _ o) by done.
    erewrite IH by apply store_lookup_insert_eq.
    rewrite store_insert_insert_eq, lower_loop_cons.
    unfold field, obj_get, own_entries.
    rewrite (props_lookup _ _ o) by done.
    unfold leak_id, insert, store_insert. simpl.
    by rewrite <- assigned_id_cons.
Qed.

Lemma for_of_copy (l : loc) entries : ∀ (h : store) acc,
  h !! l = Some acc →
  for_of entries (λ '(item, price), set_prop (VRef l) (toLowerCase item) price) h
  = (<[l := rebuild entries acc]> h, inr ()).
Proof.
  induction entries as [|[k v] entries IH]; intros h acc Hl.
  - by rewrite for_of_nil, store_insert_id.
  - rewrite for_of_cons.
    rewrite (set_prop_ref _ _ acc) by done.
    erewrite IH by apply store_lookup_insert_eq. by rewrite store_insert_insert_eq.
Qed.

Lemma for_of_extract (l : loc) entries : ∀ (h : store) acc,
  h !! l = Some acc →
  Forall (λ kv, is_nullish kv.2 = false ∧ kv.2 ≠ VRef l) entries →
  for_of entries (λ '(item, priceObject),
    price ← get_prop priceObject "price";
    set_prop (VRef l) (toLowerCase item) price) h
  = (<[l := rebuild (price_entry h <$> entries) acc]> h, inr ()).
Proof.
  induction entries as [|[k v] entries IH]; intros h acc Hl Hall.
  - by rewrite for_of_nil, store_insert_id.
  - apply Forall_cons in Hall as [[Hnn Hne] Hall]. simpl in Hnn, Hne.
    rewrite for_of_cons. unfold mbind at 1, M_bind at 1.
    rewrite get_prop_field by done.
    rewrite (set_prop_ref _ _ acc) by done.
    erewrite IH; [|apply store_lookup_insert_eq|done].
    rewrite store_insert_insert_eq, fmap_cons. unfold price_entry at 2.
    rewrite rebuild_cons. do 3 f_equal.
    apply Forall_fmap_ext_1. eapply Forall_impl; [exact Hall|].
    intros [k' v'] [_ Hv']. unfold price_entry. simpl in *.
    by rewrite field_insert_ne.
Qed.

Lemma props_cons (h : store) l kv (o : object) :
  props h l = kv :: o → h !! l = Some (kv :: o).
Proof. unfold props. destruct (h !! l) as [o'|]; simpl; [by intros ->|done]. Qed.

Lemma fresh_lookup (h : store) : h !! fresh_loc h = None.
Proof.
  unfold lookup, store_lookup, fresh_loc. apply not_elem_of_dom, is_fresh.
Qed.

(** ** The two normalisations, branch by branch *)

Section Properties.
Variable axios_get : M value.
Variable calculateItemNetworth : value → value → M value.

Lemma parsePrices_falsy v :
  truthy v = false → parsePrices axios_get v = getPrices axios_get.
Proof. intros Hv. unfold parsePrices. by rewrite Hv. Qed.

Lemma getPrices_throws_PricesError h h' e :
  getPrices axios_get h = (h', inl e) → ∃ message, e = PricesError message.
Proof.
  unfold getPrices, try_catch, getPrices_catch, throw.
  destruct (getPrices_try axios_get h) as [h1 [e1|c]]; intros; simplify_eq; eauto.
Qed.

(** [parsePrices] on a reference, by the shape of the object. *)
Lemma parsePrices_ref h l :
  parsePrices axios_get (VRef l) h =
    match props h l with
    | [] => (h, inl TypeError)
    | (k, x) :: _ =>
        if instanceof_Object x then (h, inl invalid_prices)
        else if decide (toLowerCase k = k) then (h, inr (VRef l))
        else (leak_id (props h l).*1
                (<[l := lower_loop (props h l).*1 (props h l)]> h),
              inr (VRef l))
    end.
Proof.
  unfold parsePrices. cbn [truthy]. mopen.
  rewrite Object_keys_run by done. mred.
  rewrite get_prop_field by done. mred.
  change (own_entries h (VRef l)) with (props h l).
  change (instanceof_Object (js_not (VRef l))) with false.
  unfold field, own_entries, first_value.
  destruct (props h l) as [|[k x] o] eqn:Ho; [done|].
  assert (obj_get (prop_key (head ((k, x) :: o).*1)) ((k, x) :: o) = x) as ->.
  { unfold obj_get. simpl. by rewrite decide_True. }
  rewrite orb_false_l.
  destruct (instanceof_Object x); [done|]. unfold call_toLowerCase.
  rewrite fmap_cons. cbn [head fst]. mopen. mred.
  destruct (decide (toLowerCase k = k)) as [Hk|Hk].
  - rewrite bool_decide_eq_false_2; [done|]. intros []. by rewrite Hk.
  - rewrite bool_decide_eq_true_2 by congruence.
    rewrite Object_keys_run by done. mred.
    apply props_cons in Ho as Hl.
    pose proof (for_of_lower l ((k, x) :: o).*1 h _ Hl) as Hloop.
    unfold mbind, M_bind in Hloop.
    unfold own_entries. rewrite Ho, fmap_cons. rewrite fmap_cons in Hloop.
    cbn [fst] in *. by rewrite Hloop.
Qed.

Lemma props_insert_ne (h : store) l l' o :
  l ≠ l' → props (<[l' := o]> h) l = props h l.
Proof. intros Hne. unfold props. by rewrite store_lookup_insert_ne. Qed.

Lemma allocated_fresh (h : store) v : allocated h v → v ≠ VRef (fresh_loc h).
Proof. intros Ha ->. simpl in Ha. rewrite fresh_lookup in Ha. by destruct Ha. Qed.

(** The [try] block of [getPrices] when the request resolves with a
    non-empty object. *)
Lemma getPrices_try_ref h h1 l k x o :
  axios_get h = (h1, inr (VRef l)) → h1 !! l = Some ((k, x) :: o) →
  getPrices_try axios_get h =
    let l' := fresh_loc h1 in
    if instanceof_Object x then
      match for_of ((k, x) :: o) (λ '(item, priceObject),
              price ← get_prop priceObject "price";
              set_prop (VRef l') (toLowerCase item) price) (<[l' := []]> h1) with
      | (h2, inr _) => (h2, inr (VRef l'))
      | (h2, inl e) => (h2, inl e)
      end
    else if decide (toLowerCase k = k) then (h1, inr (VRef l))
    else (<[l' := rebuild ((k, x) :: o) []]> h1, inr (VRef l')).
Proof.
  intros Hget Hl. unfold getPrices_try.
  assert (l ≠ fresh_loc h1) as Hfresh.
  { intros ->. by rewrite fresh_lookup in Hl. }
  unfold mbind at 1, M_bind at 1. rewrite Hget. mred.
  unfold mbind at 1, M_bind at 1. rewrite Object_keys_run by done. mred.
  unfold mbind at 1, M_bind at 1. rewrite get_prop_field by done. mred.
  unfold field, own_entries. rewrite (props_lookup _ _ _ Hl).
  assert (obj_get (prop_key (head ((k, x) :: o).*1)) ((k, x) :: o) = x) as ->.
  { unfold obj_get. simpl. by rewrite decide_True. }
  rewrite fmap_cons. cbn [head fst].
  destruct (instanceof_Object x).
  - unfold mbind at 1, M_bind at 1, new_object. mred.
    unfold mbind at 1, M_bind at 1. rewrite Object_entries_run by done. mred.
    unfold own_entries. rewrite props_insert_ne, (props_lookup _ _ _ Hl) by done.
    unfold mbind at 1, M_bind at 1.
    by destruct (for_of _ _ _) as [h2 [e|[]]].
  - unfold call_toLowerCase. unfold mbind at 1, M_bind at 1. mopen. mred.
    destruct (decide (toLowerCase k = k)) as [Hk|Hk].
    + rewrite bool_decide_eq_false_2; [done|]. intros []. by rewrite Hk.
    + rewrite bool_decide_eq_true_2 by congruence.
      unfold new_object. mred.
      rewrite Object_entries_run by done. mred.
      unfold own_entries. rewrite props_insert_ne, (props_lookup _ _ _ Hl) by done.
      rewrite (for_of_copy _ _ _ []) by apply store_lookup_insert_eq.
      by rewrite store_insert_insert_eq.
Qed.

(** A flat catalogue whose first key is lowercase is handed over as it
    was fetched. *)
Lemma getPrices_flat_lower h h1 l k x o :
  axios_get h = (h1, inr (VRef l)) → h1 !! l = Some ((k, x) :: o) →
  instanceof_Object x = false → toLowerCase k = k →
  getPrices axios_get h = (h1, inr (VRef l)).
Proof.
  intros Hget Hl Hx Hk. unfold getPrices, try_catch.
  rewrite (getPrices_try_ref _ _ _ _ _ _ Hget Hl). mred.
  by rewrite Hx, decide_True.
Qed.

(** A flat catalogue whose first key is not lowercase is copied, key by
    lowercased key, into a fresh object. *)
Lemma getPrices_flat_mixed h h1 l k x o :
  axios_get h = (h1, inr (VRef l)) → h1 !! l = Some ((k, x) :: o) →
  instanceof_Object x = false → toLowerCase k ≠ k →
  getPrices axios_get h
  = (<[fresh_loc h1 := rebuild ((k, x) :: o) []]> h1, inr (VRef (fresh_loc h1))).
Proof.
  intros Hget Hl Hx Hk. unfold getPrices, try_catch.
  rewrite (getPrices_try_ref _ _ _ _ _ _ Hget Hl). mred.
  by rewrite Hx, decide_False.
Qed.

(** A catalogue whose first value is an object has the [price] of every
    entry extracted into a fresh object. *)
Lemma getPrices_nested h h1 l k x o :
  axios_get h = (h1, inr (VRef l)) → h1 !! l = Some ((k, x) :: o) →
  instanceof_Object x = true →
  Forall (λ kv, is_nullish kv.2 = false ∧ allocated h1 kv.2) ((k, x) :: o) →
  getPrices axios_get h
  = (<[fresh_loc h1 := rebuild (price_entry h1 <$> (k, x) :: o) []]> h1,
     inr (VRef (fresh_loc h1))).
Proof.
  intros Hget Hl Hx Hall. unfold getPrices, try_catch.
  rewrite (getPrices_try_ref _ _ _ _ _ _ Hget Hl). mred. rewrite Hx.
  rewrite (for_of_extract _ _ _ []); [|apply store_lookup_insert_eq|].
  - rewrite store_insert_insert_eq. do 3 f_equal.
    apply Forall_fmap_ext_1. eapply Forall_impl; [exact Hall|].
    intros [k' v'] [_ Hv']. unfold price_entry. simpl in *.
    rewrite field_insert_ne; [done|]. by apply allocated_fresh.
  - eapply Forall_impl; [exact Hall|]. intros [k' v'] [? Hv']. simpl in *.
    split; [done|]. by apply allocated_fresh.
Qed.

Lemma truthy_not_nullish v : truthy v = true → is_nullish v = false.
Proof. by destruct v. Qed.

Lemma pretty_zero : pretty 0%nat = "0".
Proof. reflexivity. Qed.

(** A non-empty string is handed back as it is: its first key is ["0"]. *)
Lemma parsePrices_string s h :
  s ≠ "" → parsePrices axios_get (VStr s) h = (h, inr (VStr s)).
Proof.
  intros Hs. destruct s as [|c s]; [done|].
  unfold parsePrices. cbn [truthy String.eqb negb]. mopen.
  rewrite Object_keys_run by done. mred.
  rewrite get_prop_field by done. mred.
  unfold field, own_entries. cbn [String.length seq chars].
  rewrite !fmap_cons, pretty_zero.
  cbn [zip zip_with fmap list_fmap fst head prop_key default from_option id].
  rewrite decide_False by done. unfold obj_get. cbn [obj_lookup].
  by rewrite decide_True.
Qed.

(** A truthy argument without own keys (the empty object, a number,
    [true]) makes [firstKey] undefined: the guard of line 36 lets it
    through and [firstKey.toLowerCase()] raises a [TypeError]. *)
Lemma parsePrices_no_keys v h :
  truthy v = true → own_entries h v = [] →
  parsePrices axios_get v h = (h, inl TypeError).
Proof.
  intros Hv He. pose proof (truthy_not_nullish v Hv) as Hn.
  unfold parsePrices. rewrite Hv. mopen.
  rewrite Object_keys_run by done. mred.
  rewrite get_prop_field by done. mred. rewrite He.
  assert (field h v (prop_key (head ([] : object).*1)) = VUndefined) as ->.
  { unfold field. rewrite He. by destruct v. }
  by rewrite orb_false_r.
Qed.

(** C2, what the code does instead: for an argument that is not a
    non-empty keyed structure (a value that is not an object, or an
    object without keys), [parsePrices] never raises "Invalid prices data
    provided"; when the argument is truthy and has no keys, the empty
    object among them, it raises a [TypeError]. *)
Theorem parsePrices_unkeyed_not_rejected v h :
  instanceof_Object v = false ∨ own_entries h v = [] →
  (parsePrices axios_get v h).2 ≠ inl invalid_prices
  ∧ (truthy v = true → own_entries h v = [] →
     parsePrices axios_get v h = (h, inl TypeError)).
Proof.
  intros Hv. split; [|apply parsePrices_no_keys].
  destruct (truthy v) eqn:Ht.
  - destruct v as [| |b|n| |s|l]; try done.
    + by rewrite parsePrices_no_keys.
    + by rewrite parsePrices_no_keys.
    + destruct s as [|c s]; [done|]. by rewrite parsePrices_string.
    + destruct Hv as [Hv|Hv]; [done|]. by rewrite parsePrices_no_keys.
  - rewrite parsePrices_falsy by done.
    destruct (getPrices axios_get h) as [h' [e|c]] eqn:Hg; [|done].
    by apply getPrices_throws_PricesError in Hg as [message ->].
Qed.

(** C5: normalising a catalogue that is already canonical (non-empty,
    every key lowercase, every value a bare number) returns that same
    catalogue and leaves the store as it was. *)
Theorem parsePrices_idempotent h l o :
  h !! l = Some o → canonical o = true →
  parsePrices axios_get (VRef l) h = (h, inr (VRef l)).
Proof.
  intros Hl Hc. rewrite parsePrices_ref, (props_lookup _ _ _ Hl).
  destruct o as [|[k x] o]; [done|].
  unfold canonical in Hc. cbn [forallb fst snd] in Hc.
  apply andb_true_iff in Hc as [_ Hc].
  apply andb_true_iff in Hc as [Hc _].
  apply andb_true_iff in Hc as [Hk Hx].
  apply bool_decide_eq_true_1 in Hk.
  rewrite decide_True by done. by destruct x.
Qed.

(** C8: [parsePrices] raises "Invalid prices data provided" exactly when
    its argument is truthy and the value under its first enumerated key
    is an object; the disjunct [!prices instanceof Object] is false for
    every value, being [(!prices) instanceof Object]. *)
Theorem parsePrices_invalid_iff v h :
  ((parsePrices axios_get v h).2 = inl invalid_prices
   ↔ truthy v = true ∧ instanceof_Object (first_value h v) = true)
  ∧ instanceof_Object (js_not v) = false.
Proof.
  split; [|done]. destruct (truthy v) eqn:Hv.
  - destruct v as [| |b|n| |s|l]; try done.
    + rewrite parsePrices_no_keys by done. by split; [|intros [_ ?]].
    + rewrite parsePrices_no_keys by done. by split; [|intros [_ ?]].
    + destruct s as [|c s]; [done|]. rewrite parsePrices_string by done.
      by split; [|intros [_ ?]].
    + rewrite parsePrices_ref. unfold first_value, own_entries.
      destruct (props h l) as [|[k x] o]; [by split; [|intros [_ ?]]|].
      destruct (instanceof_Object x); [done|].
      by case_decide; (split; [|intros [_ ?]]).
  - rewrite parsePrices_falsy by done. split; [|by intros [? _]].
    destruct (getPrices axios_get h) as [h' [e|c]] eqn:Hg; [|done].
    apply getPrices_throws_PricesError in Hg as [message ->]. done.
Qed.

(** [getItemNetworth], with its guard evaluated. *)
Lemma getItemNetworth_run item options h :
  getItemNetworth axios_get calculateItemNetworth item options h
  = if negb (truthy (field h item "tag")) && negb (truthy (field h item "exp"))
    then (h, inl invalid_item)
    else (supplied ← opt_get options "prices";
          prices ← parsePrices axios_get supplied;
          calculateItemNetworth item prices) h.
Proof.
  unfold getItemNetworth.
  unfold mbind at 1, M_bind at 1. rewrite opt_get_field. mred.
  unfold mbind at 1, M_bind at 1.
  destruct (truthy (field h item "tag")); cbn [negb andb]; mopen; mred;
    [done|].
  rewrite opt_get_field. mred.
  by destruct (truthy (field h item "exp")).
Qed.

(** C10: presence of [tag] and [exp] is tested by truthiness: an item
    on which both fields exist but hold falsy values is rejected with
    "Invalid item provided". *)
Theorem getItemNetworth_falsy_fields_rejected h l o tag exp options :
  h !! l = Some o →
  obj_lookup "tag" o = Some tag → obj_lookup "exp" o = Some exp →
  truthy tag = false → truthy exp = false →
  getItemNetworth axios_get calculateItemNetworth (VRef l) options h
  = (h, inl invalid_item).
Proof.
  intros Hl Htag Hexp Ht He. rewrite getItemNetworth_run.
  unfold field, own_entries, obj_get.
  rewrite (props_lookup _ _ _ Hl), Htag, Hexp. simpl. by rewrite Ht, He.
Qed.

(** C6, as the code has it: the item is rejected with "Invalid item
    provided" when [tag] and [exp] are both falsy, which covers an item
    that has neither field and the empty object; when one of them is
    truthy the call normalises the supplied prices and hands the item
    and the catalogue to [calculateItemNetworth]. *)
Theorem getItemNetworth_validation item options h :
  (truthy (field h item "tag") = false → truthy (field h item "exp") = false →
     getItemNetworth axios_get calculateItemNetworth item options h
     = (h, inl invalid_item))
  ∧ (truthy (field h item "tag") = true ∨ truthy (field h item "exp") = true →
     getItemNetworth axios_get calculateItemNetworth item options h
     = (supplied ← opt_get options "prices";
        prices ← parsePrices axios_get supplied;
        calculateItemNetworth item prices) h)
  ∧ (∀ l, item = VRef l →
     obj_lookup "tag" (props h l) = None → obj_lookup "exp" (props h l) = None →
     getItemNetworth axios_get calculateItemNetworth item options h
     = (h, inl invalid_item)).
Proof.
  rewrite getItemNetworth_run. split_and!.
  - by intros -> ->.
  - intros [->| ->]; [done|]. by rewrite andb_false_r.
  - intros l -> Ht He. unfold field, own_entries, obj_get.
    by rewrite Ht, He.
Qed.

(** C7: when the request fails, [getPrices] fails with a [PricesError]
    whose message ends with the status code of the answer, or with
    "Unknown" when there was no answer.  (An HTTP status code is never
    0.) *)
Theorem getPrices_fetch_failure h h' status :
  axios_get h = (h', inl (AxiosError status)) → status ≠ Some 0%Z →
  getPrices axios_get h
  = (h', inl (PricesError ("Failed to retrieve prices with status code "
                           +:+ match status with
                               | Some code => pretty code
                               | None => "Unknown"
                               end))).
Proof.
  intros Hget Hs. unfold getPrices, try_catch, getPrices_try.
  unfold mbind at 1, M_bind at 1. rewrite Hget. mred.
  unfold getPrices_catch, throw. do 3 f_equal.
  destruct status as [code|]; [|done]. unfold response_status, js_or.
  cbn [truthy]. destruct (Z.eqb_spec code 0) as [->|]; [done|done].
Qed.

Lemma props_leak_id ids (h : store) l : props (leak_id ids h) l = props h l.
Proof. done. Qed.

(** [parsePrices] on a flat catalogue whose first key is not lowercase
    and whose keys do not collide. *)
Lemma parsePrices_mixed h l k x o :
  h !! l = Some ((k, x) :: o) → instanceof_Object x = false →
  toLowerCase k ≠ k → collision_free ((k, x) :: o) →
  parsePrices axios_get (VRef l) h
  = (leak_id ((k, x) :: o).*1
       (<[l := ((k, x) :: o) ++ lowered_entries ((k, x) :: o)]> h),
     inr (VRef l)).
Proof.
  intros Hl Hx Hk Hcf.
  rewrite parsePrices_ref, (props_lookup _ _ _ Hl), Hx, decide_False by done.
  by rewrite lower_loop_exact.
Qed.

(** C3, as the code has it: when the first enumerated key of a flat
    catalogue is not lowercase and no two keys collide once lowercased,
    then after normalisation the lowercase form of every original key
    resolves to the value of that key. *)
Theorem parsePrices_lowercase_lookup h l k x o :
  h !! l = Some ((k, x) :: o) → instanceof_Object x = false →
  toLowerCase k ≠ k → collision_free ((k, x) :: o) →
  ∃ h', parsePrices axios_get (VRef l) h = (h', inr (VRef l)) ∧
    ∀ k' v', (k', v') ∈ (k, x) :: o →
      obj_lookup (toLowerCase k') (props h' l) = Some v'.
Proof.
  intros Hl Hx Hk Hcf. eexists. split; [by apply parsePrices_mixed|].
  intros k' v' Hin. rewrite props_leak_id.
  erewrite props_lookup by apply store_lookup_insert_eq.
  rewrite <- lower_loop_exact by done. by apply lower_loop_lookup.
Qed.

(** C9, as the code has it: for a flat catalogue whose first enumerated
    key is not lowercase and whose keys do not collide once lowercased,
    [parsePrices] returns the very object it was given, to which it has
    appended one entry per key that is not lowercase, under the
    lowercased key and with the same value; every original entry is
    still there.  (Beside the catalogue, the store differs in the global
    variable [id] only, which the loop leaves holding the last key.) *)
Theorem parsePrices_extends_in_place h l k x o :
  h !! l = Some ((k, x) :: o) → instanceof_Object x = false →
  toLowerCase k ≠ k → collision_free ((k, x) :: o) →
  let extended := ((k, x) :: o) ++ lowered_entries ((k, x) :: o) in
  parsePrices axios_get (VRef l) h
  = (leak_id ((k, x) :: o).*1 (<[l := extended]> h), inr (VRef l))
  ∧ ∀ k' v', (k', v') ∈ (k, x) :: o →
      obj_lookup k' extended = Some v' ∧
      obj_lookup (toLowerCase k') extended = Some v'.
Proof.
  intros Hl Hx Hk Hcf extended. split; [by apply parsePrices_mixed|].
  intros k' v' Hin. unfold extended.
  rewrite <- lower_loop_exact by done. by apply lower_loop_lookup.
Qed.

(** The lowercase forms that line 37 writes are keys of the object it
    leaves. *)
Lemma lower_loop_writes ids : ∀ (cur : object) id,
  id ∈ ids → toLowerCase id ≠ "__proto__" →
  is_Some (obj_lookup (toLowerCase id) (lower_loop ids cur)).
Proof.
  induction ids as [|id0 ids IH]; intros cur id Hin Hp.
  - by apply elem_of_nil in Hin.
  - rewrite lower_loop_cons. apply elem_of_cons in Hin as [->|Hin]; [|by apply IH].
    apply lower_loop_is_Some. rewrite obj_lookup_set_eq; [done|by left].
Qed.


Lemma price_entry_keys h (o : object) : (price_entry h <$> o).*1 = o.*1.
Proof. rewrite <- list_fmap_compose. by apply list_fmap_ext. Qed.

(** After line 37, a lowercase name that is not the lowercase form of a
    key of the catalogue is still absent. *)
Lemma lowered_lookup_absent (o : object) key :
  key ∉ toLowerCase <$> o.*1 → toLowerCase key = key →
  obj_lookup key (o ++ lowered_entries o) = None.
Proof.
  intros Hkey Hlow. apply obj_lookup_None.
  rewrite fmap_app, elem_of_app. intros [Hin|Hin].
  - apply Hkey. rewrite <- Hlow. by apply list_elem_of_fmap_2.
  - apply lowered_entries_keys in Hin as (k0 & Hk0 & <- & _).
    apply Hkey. by apply list_elem_of_fmap_2.
Qed.

Lemma obj_lookup_Some_key k v (o : object) :
  obj_lookup k o = Some v → k ∈ o.*1.
Proof.
  intros Hk. apply obj_lookup_Some_elem in Hk.
  by apply (list_elem_of_fmap_2 fst) in Hk.
Qed.

(** C1, as the code has it.  Let the same raw structure be supplied by
    the caller and be the answer of the fetch.  (1) When no catalogue is
    supplied, [parsePrices] is [getPrices].  (2) A flat structure whose
    first key is lowercase comes back unchanged on both pathways.
    (3) For a flat structure whose first key is not lowercase, without
    colliding keys, [parsePrices] appends the lowercased entries to the
    supplied object (and leaves the last key in the global variable
    [id]), while [getPrices] leaves the fetched object alone and builds a
    fresh object whose keys are exactly the lowercased keys; the two
    results agree on every lowercase identifier.  (4) A structure whose
    first value is an object is refused by [parsePrices] with "Invalid
    prices data provided"; only [getPrices] extracts the [price] of each
    entry, into a fresh object, provided that the keys do not collide
    and that no entry is [null], [undefined] or a dangling reference. *)
Theorem parsePrices_getPrices_pathways h l k x o :
  let catalog := (k, x) :: o in
  h !! l = Some catalog → axios_get h = (h, inr (VRef l)) →
  (∀ v, truthy v = false → parsePrices axios_get v = getPrices axios_get)
  ∧ (instanceof_Object x = false → toLowerCase k = k →
       parsePrices axios_get (VRef l) h = (h, inr (VRef l)) ∧
       getPrices axios_get h = (h, inr (VRef l)))
  ∧ (instanceof_Object x = false → toLowerCase k ≠ k →
     collision_free catalog →
       let extended := catalog ++ lowered_entries catalog in
       let built := rebuild catalog [] in
       parsePrices axios_get (VRef l) h
       = (leak_id catalog.*1 (<[l := extended]> h), inr (VRef l)) ∧
       getPrices axios_get h
       = (<[fresh_loc h := built]> h, inr (VRef (fresh_loc h))) ∧
       h !! fresh_loc h = None ∧
       <[fresh_loc h := built]> h !! l = Some catalog ∧
       (∀ key, key ∈ built.*1 ↔ key ∈ toLowerCase <$> catalog.*1) ∧
       (∀ k' v', (k', v') ∈ catalog →
          obj_lookup (toLowerCase k') extended = Some v' ∧
          obj_lookup (toLowerCase k') built = Some v') ∧
       (∀ key, toLowerCase key = key →
          obj_lookup key extended = obj_lookup key built))
  ∧ (instanceof_Object x = true →
       parsePrices axios_get (VRef l) h = (h, inl invalid_prices) ∧
       (collision_free catalog →
        Forall (λ kv, is_nullish kv.2 = false ∧ allocated h kv.2) catalog →
        let built := rebuild (price_entry h <$> catalog) [] in
        getPrices axios_get h
        = (<[fresh_loc h := built]> h, inr (VRef (fresh_loc h))) ∧
        h !! fresh_loc h = None ∧
        <[fresh_loc h := built]> h !! l = Some catalog ∧
        ∀ k' x', (k', x') ∈ catalog →
          obj_lookup (toLowerCase k') built = Some (field h x' "price"))).
Proof.
  intros catalog Hl Hget. unfold catalog in Hl.
  assert (l ≠ fresh_loc h) as Hfresh.
  { intros E. by rewrite E, fresh_lookup in Hl. }
  split_and!.
  - apply parsePrices_falsy.
  - intros Hx Hk. split.
    + by rewrite parsePrices_ref, (props_lookup _ _ _ Hl), Hx, decide_True.
    + by eapply getPrices_flat_lower.
  - intros Hx Hk Hcf extended built.
    assert (∀ k' v', (k', v') ∈ catalog →
      obj_lookup (toLowerCase k') extended = Some v' ∧
      obj_lookup (toLowerCase k') built = Some v') as Hfound.
    { intros k' v' Hin. split.
      - unfold extended. rewrite <- lower_loop_exact by done.
        by apply lower_loop_lookup.
      - destruct Hcf as [Hnd Hproto]. apply rebuild_lookup; [done..|].
        rewrite Forall_forall in Hproto. apply Hproto.
        by apply (list_elem_of_fmap_2 fst) in Hin. }
    split_and!.
    + by apply parsePrices_mixed.
    + by eapply getPrices_flat_mixed.
    + apply fresh_lookup.
    + by rewrite store_lookup_insert_ne.
    + intros key. split.
      * intros Hkey. apply list_elem_of_fmap in Hkey as ([k' v'] & -> & Hin).
        apply elem_of_rebuild in Hin as [Hin|(k0 & v0 & Hin & [= -> ->])];
          [by apply elem_of_nil in Hin|].
        cbn [fst]. apply (list_elem_of_fmap_2 toLowerCase).
        by apply (list_elem_of_fmap_2 fst) in Hin.
      * intros Hkey. apply list_elem_of_fmap in Hkey as (k' & -> & Hin).
        apply list_elem_of_fmap in Hin as ([k'' v'] & -> & Hin).
        destruct (Hfound _ _ Hin) as [_ Hbuilt].
        by apply obj_lookup_Some_key in Hbuilt.
    + done.
    + intros key Hkey.
      destruct (decide (key ∈ toLowerCase <$> catalog.*1)) as [Hin|Hout].
      * apply list_elem_of_fmap in Hin as (k' & -> & Hin).
        apply list_elem_of_fmap in Hin as ([k'' v'] & -> & Hin). cbn [fst].
        destruct (Hfound _ _ Hin) as [-> ->]. done.
      * unfold extended, built.
        rewrite lowered_lookup_absent by done.
        by rewrite rebuild_lookup_other.
  - intros Hx. split.
    + by rewrite parsePrices_ref, (props_lookup _ _ _ Hl), Hx.
    + intros [Hnd Hproto] Hall built. split_and!.
      * by eapply getPrices_nested.
      * apply fresh_lookup.
      * by rewrite store_lookup_insert_ne.
      * intros k' x' Hin. apply rebuild_lookup.
        -- by rewrite price_entry_keys.
        -- by apply (list_elem_of_fmap_2 (price_entry h)) in Hin.
        -- rewrite Forall_forall in Hproto. apply Hproto.
           by apply (list_elem_of_fmap_2 fst) in Hin.
Qed.

End Properties.

(** * Further properties of the four functions *)

(** ** Line 37 when keys collide *)

Lemma obj_lookup_set_self k v (o : object) :
  obj_lookup k (obj_set k v o) = Some v ∨ obj_lookup k (obj_set k v o) = None.
Proof.
  destruct (decide (k ≠ "__proto__" ∨ is_Some (obj_lookup k o))) as [Hk|Hk].
  - left. by apply obj_lookup_set_eq.
  - right. unfold obj_set. destruct (obj_lookup k o) eqn:E.
    + destruct Hk. right. by eexists.
    + case_decide; [done|]. destruct Hk. by left.
Qed.

Lemma lower_loop_descends (orig : object) ids : ∀ cur : object,
  (∀ id, id ∈ ids → is_Some (obj_lookup id cur)) →
  descends_from orig cur → descends_from orig (lower_loop ids cur).
Proof.
  induction ids as [|id ids IH]; intros cur Hids Hinv; [done|].
  rewrite lower_loop_cons. apply IH.
  - intros id' Hid'. apply obj_set_is_Some. apply Hids. by right.
  - destruct (Hids id) as [w Hw]; [by left|].
    unfold obj_get. rewrite Hw. simpl. intros key v.
    destruct (decide (key = toLowerCase id)) as [->|Hne].
    + destruct (obj_lookup_set_self (toLowerCase id) w cur) as [-> | ->];
        [|done].
      intros [= <-]. destruct (Hinv id w Hw) as (k0 & Hk0 & Hlow).
      exists k0. by rewrite toLowerCase_idemp.
    + rewrite obj_lookup_set_ne by done. apply Hinv.
Qed.

(** A second pass of line 37 over an object in which every key and its
    lowercase form hold the same value changes nothing. *)
Lemma lower_loop_fixed ids : ∀ o : object,
  (∀ id, id ∈ ids → ∃ v, obj_lookup id o = Some v ∧
                         obj_lookup (toLowerCase id) o = Some v) →
  lower_loop ids o = o.
Proof.
  induction ids as [|id ids IH]; intros o Hall; [done|].
  rewrite lower_loop_cons. destruct (Hall id) as (v & Hv & Hlow); [by left|].
  unfold obj_get. rewrite Hv. simpl. rewrite obj_set_id by done.
  apply IH. intros id' Hid'. apply Hall. by right.
Qed.

(** ** The loops of [getPrices], whatever the entries *)

Lemma for_of_extract_store (l : loc) entries : ∀ (h : store) acc,
  h !! l = Some acc →
  ∃ acc' r,
    for_of entries (λ '(item, priceObject),
      price ← get_prop priceObject "price";
      set_prop (VRef l) (toLowerCase item) price) h
    = (<[l := acc']> h, r) ∧
    ∀ key, key ∈ acc'.*1 → key ∈ acc.*1 ∨ key ∈ toLowerCase <$> entries.*1.
Proof.
  induction entries as [|[k v] entries IH]; intros h acc Hl.
  - exists acc, (inr ()). rewrite for_of_nil, store_insert_id by done. auto.
  - rewrite for_of_cons. unfold mbind at 1, M_bind at 1.
    destruct (is_nullish v) eqn:Hv.
    + exists acc, (inl TypeError). rewrite store_insert_id by done.
      split; [by destruct v|auto].
    + rewrite get_prop_field by done.
      rewrite (set_prop_ref _ _ acc) by done.
      destruct (IH (<[l := obj_set (toLowerCase k) (field h v "price") acc]> h)
                  (obj_set (toLowerCase k) (field h v "price") acc))
        as (acc' & r & Hrun & Hkeys); [apply store_lookup_insert_eq|].
      exists acc', r. rewrite Hrun, store_insert_insert_eq. split; [done|].
      intros key Hkey. rewrite !fmap_cons. cbn [fst].
      destruct (Hkeys key Hkey) as [Hin|Hin]; [|right; by right].
      apply list_elem_of_fmap in Hin as ([k' v'] & -> & Hin).
      apply elem_of_obj_set in Hin as [[= -> ->]|Hin].
      * right. by left.
      * left. by apply (list_elem_of_fmap_2 fst) in Hin.
Qed.

(** ** [getPrices] on every kind of answer *)

Section Further.
Variable axios_get : M value.
Variable parseItems : value → M value.
Variable calculateNetworth : value → value → value → value → value → M value.
Variable calculateItemNetworth : value → value → M value.

(** An answer that is [null], [undefined] or has no own keys makes the
    [try] block raise a [TypeError], which the [catch] block reports as a
    failure with status "Unknown". *)
Lemma getPrices_no_keys h h1 data :
  axios_get h = (h1, inr data) →
  is_nullish data = true ∨ own_entries h1 data = [] →
  getPrices axios_get h
  = (h1, inl (PricesError "Failed to retrieve prices with status code Unknown")).
Proof.
  intros Hget Hdata. unfold getPrices, try_catch, getPrices_try.
  unfold mbind at 1, M_bind at 1. rewrite Hget. mred.
  destruct (is_nullish data) eqn:Hn; [by destruct data|].
  destruct Hdata as [?|He]; [done|].
  unfold mbind at 1, M_bind at 1. rewrite Object_keys_run by done. mred.
  unfold mbind at 1, M_bind at 1. rewrite get_prop_field by done. mred.
  rewrite He.
  assert (field h1 data (prop_key (head ([] : object).*1)) = VUndefined) as ->.
  { unfold field. rewrite He. by destruct data. }
  done.
Qed.

(** A non-empty string has first key ["0"] and first value a character:
    it is returned as it came. *)
Lemma getPrices_string h h1 s :
  axios_get h = (h1, inr (VStr s)) → s ≠ "" →
  getPrices axios_get h = (h1, inr (VStr s)).
Proof.
  intros Hget Hs. destruct s as [|c s]; [done|].
  unfold getPrices, try_catch, getPrices_try.
  unfold mbind at 1, M_bind at 1. rewrite Hget. mred.
  unfold mbind at 1, M_bind at 1. rewrite Object_keys_run by done. mred.
  unfold mbind at 1, M_bind at 1. rewrite get_prop_field by done. mred.
  unfold field, own_entries. cbn [String.length seq chars].
  rewrite !fmap_cons, pretty_zero.
  cbn [zip zip_with fmap list_fmap fst head prop_key default from_option id].
  rewrite decide_False by done. unfold obj_get. cbn [obj_lookup].
  by rewrite decide_True.
Qed.

(** The two outcomes of [getPrices] on a non-empty object: the object
    itself, or a fresh object whose keys are lowercased keys of the
    answer. *)
Lemma getPrices_ref_cases h h1 l k x o :
  axios_get h = (h1, inr (VRef l)) → h1 !! l = Some ((k, x) :: o) →
  (instanceof_Object x = false ∧ toLowerCase k = k ∧
   getPrices axios_get h = (h1, inr (VRef l)))
  ∨ ((instanceof_Object x = true ∨ toLowerCase k ≠ k) ∧
     ∃ o' r,
       getPrices axios_get h = (<[fresh_loc h1 := o']> h1, r) ∧
       (∀ c, r = inr c → c = VRef (fresh_loc h1)) ∧
       (∀ key, key ∈ o'.*1 → key ∈ toLowerCase <$> ((k, x) :: o).*1)).
Proof.
  intros Hget Hl.
  destruct (instanceof_Object x) eqn:Hx;
    [|destruct (decide (toLowerCase k = k)) as [Hk|Hk]].
  - right. split; [by left|]. unfold getPrices, try_catch.
    rewrite (getPrices_try_ref _ _ _ _ _ _ _ Hget Hl). mred. rewrite Hx.
    destruct (for_of_extract_store (fresh_loc h1) ((k, x) :: o)
                (<[fresh_loc h1 := []]> h1) [])
      as (o' & r & Hrun & Hkeys); [apply store_lookup_insert_eq|].
    rewrite Hrun, store_insert_insert_eq. exists o'.
    destruct r as [e|[]]; eexists; (split; [reflexivity|]).
    + split; [done|]. intros key Hkey.
      destruct (Hkeys key Hkey) as [Hin|Hin]; [by apply elem_of_nil in Hin|done].
    + split; [by intros c [= <-]|]. intros key Hkey.
      destruct (Hkeys key Hkey) as [Hin|Hin]; [by apply elem_of_nil in Hin|done].
  - left. split_and!; [done..|]. by eapply getPrices_flat_lower.
  - right. split; [by right|]. do 2 eexists.
    split; [by eapply getPrices_flat_mixed|]. split; [by intros c [= <-]|].
    intros key Hkey. apply list_elem_of_fmap in Hkey as ([k' v'] & -> & Hin).
    apply elem_of_rebuild in Hin as [Hin|(k0 & v0 & Hin & [= -> ->])].
    + by apply elem_of_nil in Hin.
    + cbn [fst]. apply (list_elem_of_fmap_2 toLowerCase).
      by apply (list_elem_of_fmap_2 fst) in Hin.
Qed.

Lemma for_of_extract_nullish (l : loc) entries : ∀ h : store,
  Exists (λ kv, is_nullish kv.2 = true) entries →
  (for_of entries (λ '(item, priceObject),
     price ← get_prop priceObject "price";
     set_prop (VRef l) (toLowerCase item) price) h).2 = inl TypeError.
Proof.
  induction entries as [|[k v] entries IH]; intros h Hex.
  - by apply Exists_nil in Hex.
  - rewrite for_of_cons. unfold mbind at 1, M_bind at 1.
    destruct (is_nullish v) eqn:Hv; [by destruct v|].
    rewrite get_prop_field by done. unfold set_prop at 1.
    apply Exists_cons in Hex as [Hex|Hex]; [simpl in Hex; congruence|].
    destruct (h !! l); by apply IH.
Qed.

Lemma for_of_extract_error (l : loc) entries : ∀ (h h' : store) e,
  for_of entries (λ '(item, priceObject),
    price ← get_prop priceObject "price";
    set_prop (VRef l) (toLowerCase item) price) h = (h', inl e) →
  e = TypeError.
Proof.
  induction entries as [|[k v] entries IH]; intros h h' e; [done|].
  rewrite for_of_cons. unfold mbind at 1, M_bind at 1.
  destruct (is_nullish v) eqn:Hv; [destruct v; try done; by intros [= _ <-]..|].
  rewrite get_prop_field by done. unfold set_prop at 1.
  destruct (h !! l); apply IH.
Qed.

(** What the [try] block of [getPrices] can throw: a [TypeError] of its
    own, or the rejection of the request. *)
Lemma getPrices_try_error h h' e :
  getPrices_try axios_get h = (h', inl e) →
  e = TypeError ∨ axios_get h = (h', inl e).
Proof.
  unfold getPrices_try. unfold mbind at 1, M_bind at 1.
  destruct (axios_get h) as [h1 [e1|data]]; [intros [= <- <-]; by right|].
  intros Htry. left.
  destruct (is_nullish data) eqn:Hn.
  { destruct data; try done; cbv in Htry; by simplify_eq. }
  unfold mbind at 1, M_bind at 1 in Htry.
  rewrite Object_keys_run in Htry by done.
  unfold mbind at 1, M_bind at 1 in Htry.
  rewrite get_prop_field in Htry by done.
  destruct (instanceof_Object _).
  - unfold mbind at 1, M_bind at 1, new_object in Htry.
    unfold mbind at 1, M_bind at 1 in Htry.
    rewrite Object_entries_run in Htry by done.
    unfold mbind at 1, M_bind at 1 in Htry.
    destruct (for_of _ _ _) as [h2 [e2|[]]] eqn:Hloop; [|done].
    injection Htry as <- <-. by apply for_of_extract_error in Hloop.
  - unfold mbind at 1, M_bind at 1 in Htry.
    destruct (head _) as [k|]; [|by injection Htry as <- <-].
    unfold call_toLowerCase, mret, M_ret in Htry.
    destruct (bool_decide _); [|done].
    unfold mbind at 1, M_bind at 1, new_object in Htry.
    unfold mbind at 1, M_bind at 1 in Htry.
    rewrite Object_entries_run in Htry by done.
    unfold mbind at 1, M_bind at 1 in Htry.
    by rewrite (for_of_copy _ _ _ []) in Htry by apply store_lookup_insert_eq.
Qed.

(** [getNetworth] once the purse has been read. *)
Lemma getNetworth_run profileData bankBalance options h :
  is_nullish profileData = false →
  getNetworth axios_get parseItems calculateNetworth profileData bankBalance
    options h
  = match parsePrices axios_get (field h options "prices") h with
    | (h1, inl e) => (h1, inl e)
    | (h1, inr prices) =>
        match parseItems profileData h1 with
        | (h2, inl e) => (h2, inl e)
        | (h2, inr items) =>
            calculateNetworth items (field h profileData "coin_purse")
              bankBalance prices (field h2 options "onlyNetworth") h2
        end
    end.
Proof.
  intros Hp. unfold getNetworth.
  unfold mbind at 1, M_bind at 1. rewrite get_prop_field by done. mred.
  unfold mbind at 1, M_bind at 1. rewrite opt_get_field. mred.
  unfold mbind at 1, M_bind at 1.
  destruct (parsePrices _ _ _) as [h1 [e|prices]]; [done|].
  unfold mbind at 1, M_bind at 1.
  destruct (parseItems _ _) as [h2 [e|items]]; [done|].
  unfold mbind at 1, M_bind at 1. by rewrite opt_get_field.
Qed.

(** X1: the two entry points reject a missing first argument
    differently.  [getNetworth] reads [profileData.coin_purse] before
    anything else, so a [null] or [undefined] profile ends in a
    [TypeError]; [getItemNetworth] reads [item?.tag] and [item?.exp], so a
    [null] or [undefined] item ends in "Invalid item provided".  In both
    cases the store is untouched, whatever the options and the
    collaborators. *)
Theorem entry_points_nullish_argument v bankBalance options h :
  is_nullish v = true →
  getNetworth axios_get parseItems calculateNetworth v bankBalance options h
  = (h, inl TypeError)
  ∧ getItemNetworth axios_get calculateItemNetworth v options h
    = (h, inl invalid_item).
Proof.
  intros Hv. split; [by destruct v|].
  rewrite getItemNetworth_run. by destruct v.
Qed.

(** X2: when the normalisation of the prices fails, [getNetworth] fails
    with that very error and in that very store: neither [parseItems] nor
    [calculateNetworth] is run. *)
Theorem getNetworth_prices_error profileData bankBalance options h h' e :
  is_nullish profileData = false →
  parsePrices axios_get (field h options "prices") h = (h', inl e) →
  getNetworth axios_get parseItems calculateNetworth profileData bankBalance
    options h
  = (h', inl e).
Proof. intros Hp Hprices. by rewrite getNetworth_run, Hprices. Qed.

(** X3: for an item that passes the guard, when [options] is missing or
    [options.prices] is falsy, [getItemNetworth] values the item against
    exactly what [getPrices] returns, and fails as [getPrices] fails. *)
Theorem getItemNetworth_without_prices item options h :
  truthy (field h item "tag") = true ∨ truthy (field h item "exp") = true →
  truthy (field h options "prices") = false →
  getItemNetworth axios_get calculateItemNetworth item options h
  = (prices ← getPrices axios_get; calculateItemNetworth item prices) h.
Proof.
  intros Hitem Hprices. rewrite getItemNetworth_run.
  assert (negb (truthy (field h item "tag")) &&
          negb (truthy (field h item "exp")) = false) as ->.
  { destruct Hitem as [-> | ->]; [done|by rewrite andb_false_r]. }
  unfold mbind at 1, M_bind at 1. rewrite opt_get_field. mred.
  by rewrite parsePrices_falsy.
Qed.

(** X5: [getPrices] fails in one way only: with a [PricesError] whose
    message is "Failed to retrieve prices with status code " followed by
    the status code of a rejected request or by "Unknown". *)
Theorem getPrices_failure_is_PricesError h h' e :
  getPrices axios_get h = (h', inl e) →
  e = PricesError "Failed to retrieve prices with status code Unknown"
  ∨ ∃ code, axios_get h = (h', inl (AxiosError (Some code))) ∧ code ≠ 0%Z ∧
      e = PricesError ("Failed to retrieve prices with status code "
                       +:+ pretty code).
Proof.
  unfold getPrices, try_catch, getPrices_catch, throw.
  destruct (getPrices_try axios_get h) as [h1 [e1|c]] eqn:Htry; [|done].
  intros [= <- <-].
  destruct (getPrices_try_error _ _ _ Htry) as [->|Hax]; [by left|].
  destruct e1 as [| | |[code|]]; try by left.
  destruct (decide (code = 0%Z)) as [->|Hcode]; [by left|].
  right. exists code. split_and!; [done..|].
  unfold response_status, js_or. cbn [truthy].
  by destruct (Z.eqb_spec code 0).
Qed.

(** X6: an answer that cannot be read as a catalogue is not told apart
    from a failed request.  When the request succeeds but its body is
    [null] or [undefined], has no own keys (the empty object, the empty
    string, a number), or is an object-valued catalogue with a [null] or
    [undefined] entry, [getPrices] fails with "Failed to retrieve prices
    with status code Unknown". *)
Theorem getPrices_unreadable_answer h h1 data :
  axios_get h = (h1, inr data) →
  is_nullish data = true
  ∨ own_entries h1 data = []
  ∨ (instanceof_Object (first_value h1 data) = true ∧
     Exists (λ kv, is_nullish kv.2 = true) (own_entries h1 data)) →
  (getPrices axios_get h).2
  = inl (PricesError "Failed to retrieve prices with status code Unknown").
Proof.
  intros Hget [Hn|[He|[Hfirst Hex]]].
  - by rewrite (getPrices_no_keys _ _ _ Hget) by by left.
  - by rewrite (getPrices_no_keys _ _ _ Hget) by by right.
  - unfold first_value in Hfirst.
    destruct data as [| | | | |s|l];
      try (by apply Exists_nil in Hex).
    { destruct s as [|c s]; [by apply Exists_nil in Hex|].
      unfold own_entries in Hfirst. cbn [String.length seq chars] in Hfirst.
      by rewrite !fmap_cons in Hfirst. }
    unfold own_entries in *.
    destruct (props h1 l) as [|[k x] o] eqn:Ho; [done|].
    apply props_cons in Ho. unfold getPrices, try_catch.
    rewrite (getPrices_try_ref _ _ _ _ _ _ _ Hget Ho). mred. rewrite Hfirst.
    pose proof (for_of_extract_nullish (fresh_loc h1) _
                  (<[fresh_loc h1 := []]> h1) Hex) as Hloop.
    destruct (for_of _ _ _) as [h2 [e|[]]]; simpl in Hloop; [|done].
    by injection Hloop as ->.
Qed.

(** X7: [getPrices] never writes into an object that exists when the
    request returns, the fetched one included: whatever the answer and
    the outcome, every object of the store after the request is found
    unchanged after [getPrices]. *)
Theorem getPrices_frame h h1 r l o :
  axios_get h = (h1, r) → h1 !! l = Some o →
  (getPrices axios_get h).1 !! l = Some o.
Proof.
  intros Hget Hl. destruct r as [e|data].
  - unfold getPrices, try_catch, getPrices_try.
    unfold mbind at 1, M_bind at 1. by rewrite Hget.
  - destruct (decide (is_nullish data = true ∨ own_entries h1 data = []))
      as [Hbad|Hgood].
    { by rewrite (getPrices_no_keys _ _ _ Hget Hbad). }
    destruct data as [| |b|n| |s|l0];
      try (destruct Hgood; by auto).
    + rewrite (getPrices_string _ _ _ Hget); [done|].
      intros ->. destruct Hgood. by right.
    + unfold own_entries in Hgood.
      destruct (props h1 l0) as [|[k x] o0] eqn:Ho; [destruct Hgood; by right|].
      apply props_cons in Ho.
      destruct (getPrices_ref_cases _ _ _ _ _ _ Hget Ho)
        as [(_ & _ & ->)|(_ & o' & r & -> & _)]; [done|].
      simpl. rewrite store_lookup_insert_ne; [done|].
      intros E. by rewrite <- E, fresh_lookup in Hl.
Qed.

(** X8: whenever [getPrices] builds a catalogue (the first value of the
    answer is an object, or its first key is not lowercase), the
    catalogue is a fresh object and every one of its keys is lowercase. *)
Theorem getPrices_keys_lowercase h h1 l k x o h' c :
  axios_get h = (h1, inr (VRef l)) → h1 !! l = Some ((k, x) :: o) →
  instanceof_Object x = true ∨ toLowerCase k ≠ k →
  getPrices axios_get h = (h', inr c) →
  ∃ l', c = VRef l' ∧ h1 !! l' = None ∧
    Forall (λ key, toLowerCase key = key) (props h' l').*1.
Proof.
  intros Hget Hl Hshape Hrun.
  destruct (getPrices_ref_cases _ _ _ _ _ _ Hget Hl)
    as [(Hx & Hk & _)|(_ & o' & r & Hrun' & Hret & Hkeys)].
  { destruct Hshape; congruence. }
  rewrite Hrun' in Hrun. injection Hrun as <- ->.
  exists (fresh_loc h1). split_and!; [by apply Hret|apply fresh_lookup|].
  rewrite (props_lookup _ _ _ (store_lookup_insert_eq _ _ _)).
  apply Forall_forall. intros key Hkey.
  apply Hkeys, list_elem_of_fmap in Hkey as (k0 & -> & _).
  apply toLowerCase_idemp.
Qed.

(** X9: a catalogue obtained from [getPrices] can be handed back through
    [options.prices] as the documentation advises.  For a fetched flat
    catalogue of numbers (no key lowercasing to [__proto__]),
    [parsePrices] accepts what [getPrices] returned, returns it as it is
    and leaves the store unchanged, with any fetcher. *)
Theorem getPrices_then_parsePrices h h1 l k x o :
  axios_get h = (h1, inr (VRef l)) → h1 !! l = Some ((k, x) :: o) →
  Forall (λ kv, is_number kv.2 = true ∧ toLowerCase kv.1 ≠ "__proto__")
    ((k, x) :: o) →
  ∃ h' c, getPrices axios_get h = (h', inr c) ∧
    ∀ fetch, parsePrices fetch c h' = (h', inr c).
Proof.
  intros Hget Hl Hall.
  assert (instanceof_Object x = false) as Hx.
  { apply Forall_cons in Hall as [[Hnum _] _]. by destruct x. }
  destruct (decide (toLowerCase k = k)) as [Hk|Hk].
  - exists h1, (VRef l). split; [by eapply getPrices_flat_lower|].
    intros fetch.
    by rewrite parsePrices_ref, (props_lookup _ _ _ Hl), Hx, decide_True.
  - do 2 eexists. split; [by eapply getPrices_flat_mixed|].
    intros fetch. rewrite parsePrices_ref.
    rewrite (props_lookup _ _ _ (store_lookup_insert_eq _ _ _)).
    destruct (rebuild ((k, x) :: o) []) as [|[k0 x0] o0] eqn:Hre.
    + assert (is_Some (obj_lookup (toLowerCase k) (rebuild ((k, x) :: o) [])))
        as [? Hsome]; [|by rewrite Hre in Hsome].
      rewrite rebuild_cons. apply rebuild_is_Some.
      rewrite obj_lookup_set_eq; [done|left].
      by apply Forall_cons in Hall as [[_ ?] _].
    + assert ((k0, x0) ∈ rebuild ((k, x) :: o) []) as Hin
        by (rewrite Hre; by left).
      apply elem_of_rebuild in Hin as [Hin|(k' & v' & Hin & [= -> ->])];
        [by apply elem_of_nil in Hin|].
      rewrite Forall_forall in Hall. destruct (Hall _ Hin) as [Hnum _].
      simpl in Hnum. rewrite decide_True by apply toLowerCase_idemp.
      by destruct v'.
Qed.

(** X10: line 37 when keys collide.  For a supplied flat catalogue whose
    first key is not lowercase (keys may collide once lowercased; none
    lowercases to [__proto__]), after [parsePrices] the lowercase form of
    every original key is a key of the catalogue, and the value found
    under it is the original value of a key with that same lowercase
    form. *)
Theorem parsePrices_lowercase_lookup_descends h l k x o :
  h !! l = Some ((k, x) :: o) → instanceof_Object x = false →
  toLowerCase k ≠ k →
  Forall (λ key, toLowerCase key ≠ "__proto__") ((k, x) :: o).*1 →
  ∃ h', parsePrices axios_get (VRef l) h = (h', inr (VRef l)) ∧
    ∀ key, key ∈ ((k, x) :: o).*1 →
      ∃ k0 v, obj_lookup (toLowerCase key) (props h' l) = Some v ∧
              (k0, v) ∈ (k, x) :: o ∧ toLowerCase k0 = toLowerCase key.
Proof.
  intros Hl Hx Hk Hproto. eexists. split.
  { by rewrite parsePrices_ref, (props_lookup _ _ _ Hl), Hx, decide_False. }
  intros key Hkey. rewrite props_leak_id.
  rewrite (props_lookup _ _ _ (store_lookup_insert_eq _ _ _)).
  set (catalog := (k, x) :: o) in *.
  destruct (lower_loop_writes catalog.*1 catalog key Hkey) as [v Hv].
  { rewrite Forall_forall in Hproto. by apply Hproto. }
  assert (descends_from catalog (lower_loop catalog.*1 catalog)) as Hdesc.
  { apply lower_loop_descends.
    - intros id Hid. destruct (obj_lookup id catalog) eqn:E; [done|].
      by apply obj_lookup_None in E.
    - intros key' v' Hlook. exists key'.
      split; [by apply obj_lookup_Some_elem|done]. }
  destruct (Hdesc _ _ Hv) as (k0 & Hk0 & Hlow).
  exists k0, v. by rewrite toLowerCase_idemp in Hlow.
Qed.

(** X11: [getPrices] resolves keys that collide once lowercased by
    last write wins.  In a fetched flat catalogue whose first key is not
    lowercase, the lowercase form of a key, when it is not [__proto__],
    resolves to the value of the last entry, in enumeration order, whose
    key has that lowercase form. *)
Theorem getPrices_last_write_wins h h1 l k1 x1 before k v after :
  axios_get h = (h1, inr (VRef l)) →
  h1 !! l = Some (before ++ (k, v) :: after) →
  head (before ++ (k, v) :: after) = Some (k1, x1) →
  instanceof_Object x1 = false → toLowerCase k1 ≠ k1 →
  toLowerCase k ∉ toLowerCase <$> after.*1 → toLowerCase k ≠ "__proto__" →
  ∃ h' l', getPrices axios_get h = (h', inr (VRef l')) ∧
    obj_lookup (toLowerCase k) (props h' l') = Some v.
Proof.
  intros Hget Hl Hhead Hx Hk Hlast Hproto.
  destruct (before ++ (k, v) :: after) as [|[k1' x1'] rest] eqn:Hdata;
    [done|].
  injection Hhead as -> ->. do 2 eexists.
  split; [by eapply getPrices_flat_mixed|].
  rewrite (props_lookup _ _ _ (store_lookup_insert_eq _ _ _)).
  rewrite <- Hdata, rebuild_app, rebuild_cons.
  rewrite rebuild_lookup_other by done.
  apply obj_lookup_set_eq. by left.
Qed.

(** X12: normalising twice changes no object a second time.  After
    [parsePrices] has written the lowercase keys into a supplied
    collision-free catalogue, a second [parsePrices] on the same object
    runs line 37 again (the first key is still not lowercase), succeeds,
    and leaves every object of the store, the catalogue included, exactly
    as the first call left it.  What the second call does change is the
    global variable [id], which it leaves holding the last key of the
    extended catalogue. *)
Theorem parsePrices_second_pass h l k x o :
  h !! l = Some ((k, x) :: o) → instanceof_Object x = false →
  toLowerCase k ≠ k → collision_free ((k, x) :: o) →
  let extended := ((k, x) :: o) ++ lowered_entries ((k, x) :: o) in
  ∃ h' h'',
    parsePrices axios_get (VRef l) h = (h', inr (VRef l)) ∧
    objects h' ≠ objects h ∧
    parsePrices axios_get (VRef l) h' = (h'', inr (VRef l)) ∧
    objects h'' = objects h' ∧
    ∃ key, last extended.*1 = Some key ∧
           globals h'' = <["id" := VStr key]> (globals h').
Proof.
  intros Hl Hx Hk Hcf extended.
  set (catalog := (k, x) :: o) in *.
  set (h' := leak_id catalog.*1 (<[l := extended]> h)).
  exists h', (leak_id extended.*1 h').
  split; [by apply parsePrices_mixed|].
  assert (h' !! l = Some extended) as Hl' by apply store_lookup_insert_eq.
  assert (lower_loop extended.*1 extended = extended) as Hfixed.
  { apply lower_loop_fixed.
    intros id Hid. unfold extended in Hid. rewrite fmap_app in Hid.
    apply elem_of_app in Hid as [Hid|Hid].
    + apply list_elem_of_fmap in Hid as ([id' v] & -> & Hin).
      exists v. unfold extended. rewrite <- lower_loop_exact by done.
      by apply lower_loop_lookup.
    + apply lowered_entries_keys in Hid as (k0 & Hk0 & <- & _).
      apply list_elem_of_fmap in Hk0 as ([k0' v] & -> & Hin).
      exists v. rewrite toLowerCase_idemp. unfold extended.
      rewrite <- lower_loop_exact by done.
      split; by apply lower_loop_lookup. }
  split_and!.
  - intros E. assert (h' !! l = h !! l) as E'.
    { change (objects h' !! l = objects h !! l). by rewrite E. }
    rewrite Hl', Hl in E'. injection E' as E'.
    rewrite decide_False in E' by done.
    apply (f_equal List.length) in E'. rewrite length_app in E'.
    simpl in E'. lia.
  - rewrite parsePrices_ref, (props_lookup _ _ _ Hl').
    unfold extended at 1, catalog at 1. rewrite <- app_comm_cons.
    rewrite Hx, decide_False by done.
    by rewrite Hfixed, store_insert_id.
  - done.
  - destruct (last extended.*1) as [key|] eqn:E.
    + exists key. split; [done|].
      change (assigned_id extended.*1 (globals h')
              = <["id" := VStr key]> (globals h')).
      unfold assigned_id. by rewrite E.
    + by apply last_None in E.
Qed.

(** X13: in an object-valued answer an entry without a [price] is kept
    with the value [undefined].  When the first value of the fetched
    catalogue is an object, the keys do not collide once lowercased (none
    lowercasing to [__proto__]) and no entry is [null], [undefined] or a
    dangling reference, an entry whose value has no own [price] property
    (a bare number, an object without that field) is entered under its
    lowercased key with the value [undefined], and [getPrices]
    succeeds. *)
Theorem getPrices_missing_price_undefined h h1 l k x o k' x' :
  axios_get h = (h1, inr (VRef l)) → h1 !! l = Some ((k, x) :: o) →
  instanceof_Object x = true → collision_free ((k, x) :: o) →
  Forall (λ kv, is_nullish kv.2 = false ∧ allocated h1 kv.2) ((k, x) :: o) →
  (k', x') ∈ (k, x) :: o → obj_lookup "price" (own_entries h1 x') = None →
  ∃ h' l', getPrices axios_get h = (h', inr (VRef l')) ∧
    obj_lookup (toLowerCase k') (props h' l') = Some VUndefined.
Proof.
  intros Hget Hl Hx [Hnd Hproto] Hall Hin Hprice. do 2 eexists.
  split; [by eapply getPrices_nested|].
  rewrite (props_lookup _ _ _ (store_lookup_insert_eq _ _ _)).
  assert (field h1 x' "price" = VUndefined) as <-.
  { unfold field, obj_get. rewrite Hprice. by destruct x'. }
  apply rebuild_lookup.
  - by rewrite price_entry_keys.
  - by apply (list_elem_of_fmap_2 (price_entry h1)) in Hin.
  - rewrite Forall_forall in Hproto. apply Hproto.
    by apply (list_elem_of_fmap_2 fst) in Hin.
Qed.

(** X14: a non-empty string is taken for a catalogue.  Its first key is
    ["0"] and its first value a one-character string, so both
    [parsePrices] (string supplied as [options.prices]) and [getPrices]
    (body of the answer that is a string) return it as it is, without an
    error and without touching the store. *)
Theorem string_catalog_passes_through s h h1 :
  s ≠ "" →
  parsePrices axios_get (VStr s) h = (h, inr (VStr s))
  ∧ (axios_get h = (h1, inr (VStr s)) →
     getPrices axios_get h = (h1, inr (VStr s))).
Proof.
  intros Hs. split; [by apply parsePrices_string|].
  intros Hget. by apply getPrices_string.
Qed.

End Further.

(** X4: a truthy [options.prices] keeps both entry points off the
    network: their whole outcome is the same with any two fetchers. *)
Theorem supplied_catalog_no_fetch (fetch1 fetch2 : M value)
    parseItems calculateNetworth calculateItemNetworth
    item profileData bankBalance options h :
  truthy (field h options "prices") = true →
  getItemNetworth fetch1 calculateItemNetworth item options h
  = getItemNetworth fetch2 calculateItemNetworth item options h
  ∧ getNetworth fetch1 parseItems calculateNetworth profileData bankBalance
      options h
    = getNetworth fetch2 parseItems calculateNetworth profileData bankBalance
        options h.
Proof.
  intros Hp.
  assert (∀ h0, parsePrices fetch1 (field h options "prices") h0
                = parsePrices fetch2 (field h options "prices") h0) as Hsame.
  { intros h0. unfold parsePrices. by rewrite Hp. }
  split.
  - rewrite !getItemNetworth_run. destruct (negb _ && negb _); [done|].
    unfold mbind at 1 3, M_bind at 1 3. rewrite opt_get_field. mred.
    unfold mbind, M_bind. by rewrite Hsame.
  - destruct (is_nullish profileData) eqn:Hn; [by destruct profileData|].
    rewrite !getNetworth_run by done. by rewrite Hsame.
Qed.


(** * Concrete runs *)

Local Open Scope positive_scope.

(** C1, counterexample.  The structure [{"A": {price: 5}}]: supplied by
    the caller it is refused, fetched it is turned into [{"a": 5}]; the
    two pathways do not produce the same mapping. *)
Lemma nested_catalog_pathways_differ :
  let h : store :=
    <[1 := [("A", VRef 2)]]> (<[2 := [("price", VNum 5)]]> ∅) in
  let fetched : M value := mret (VRef 1) in
  parsePrices fetched (VRef 1) h = (h, inl invalid_prices)
  ∧ getPrices fetched h = (<[3 := [("a", VNum 5)]]> h, inr (VRef 3))
  ∧ ¬ (∃ h1 h2 c1 c2,
         parsePrices fetched (VRef 1) h = (h1, inr c1) ∧
         getPrices fetched h = (h2, inr c2) ∧
         ∀ key, field h1 c1 key = field h2 c2 key).
Proof.
  intros h fetched. split_and!; [done|done|].
  by intros (h1 & h2 & c1 & c2 & Hp & _).
Qed.

(** C3, counterexample.  In [{"a": 1, "SKYBLOCK_MENU": 5}] a key is not
    lowercase, but the first one is: nothing is rewritten and
    [skyblock_menu] resolves to nothing. *)
Lemma later_mixed_key_not_lowercased :
  let catalog : object := [("a", VNum 1); ("SKYBLOCK_MENU", VNum 5)] in
  let h : store := <[1 := catalog]> ∅ in
  parsePrices no_network (VRef 1) h = (h, inr (VRef 1))
  ∧ toLowerCase "SKYBLOCK_MENU" = "skyblock_menu"
  ∧ obj_lookup "skyblock_menu" (props h 1) = None
  ∧ ¬ (∃ h' c, parsePrices no_network (VRef 1) h = (h', inr c) ∧
         ∀ k v, (k, v) ∈ catalog → field h' c (toLowerCase k) = v).
Proof.
  intros catalog h. split_and!; [done..|].
  intros (h' & c & Hp & Hall).
  assert (parsePrices no_network (VRef 1) h = (h, inr (VRef 1))) as E by done.
  rewrite E in Hp. injection Hp as <- <-.
  assert (field h (VRef 1) (toLowerCase "SKYBLOCK_MENU") = VNum 5) as Hbad
    by (apply Hall; right; left).
  by vm_compute in Hbad.
Qed.


(** C6, counterexample.  The item [{exp: 0}] has an experience field, and
    the call is rejected all the same instead of going on to the
    valuation. *)
Lemma zero_exp_item_rejected :
  let h : store :=
    <[1 := [("exp", VNum 0)]]>
   (<[2 := [("prices", VRef 3)]]>
   (<[3 := [("a", VNum 1)]]> ∅)) in
  obj_lookup "exp" (props h 1) = Some (VNum 0)
  ∧ getItemNetworth no_network no_valuation (VRef 1) (VRef 2) h
    = (h, inl invalid_item)
  ∧ (supplied ← opt_get (VRef 2) "prices";
     prices ← parsePrices no_network supplied;
     no_valuation (VRef 1) prices) h = (h, inr VNull)
  ∧ getItemNetworth no_network no_valuation (VRef 1) (VRef 2) h
    ≠ (supplied ← opt_get (VRef 2) "prices";
       prices ← parsePrices no_network supplied;
       no_valuation (VRef 1) prices) h.
Proof. intros h. by split_and!. Qed.

(** C9, counterexample.  A first key that is not lowercase is not enough:
    [{"A": {}}] is refused rather than returned, and in
    [{"A": 1, "a": 2}] the entry under the lowercase form of the original
    key ["a"] ends up holding 1, not its own value 2. *)
Lemma first_key_case_not_enough :
  let h1 : store := <[1 := [("A", VRef 2)]]> (<[2 := []]> ∅) in
  let h2 : store := <[1 := [("A", VNum 1); ("a", VNum 2)]]> ∅ in
  parsePrices no_network (VRef 1) h1 = (h1, inl invalid_prices)
  ∧ parsePrices no_network (VRef 1) h2
    = (leak_id ["A"; "a"] (<[1 := [("A", VNum 1); ("a", VNum 1)]]> h2),
       inr (VRef 1))
  ∧ ¬ (∃ h' c, parsePrices no_network (VRef 1) h1 = (h', inr c))
  ∧ ¬ (∃ h' c, parsePrices no_network (VRef 1) h2 = (h', inr c) ∧
         ∀ k v, (k, v) ∈ [("A", VNum 1); ("a", VNum 2)] →
           field h' c (toLowerCase k) = v).
Proof.
  intros h1 h2. split_and!; [done|done|by intros (h' & c & Hp)|].
  intros (h' & c & Hp & Hall).
  assert (parsePrices no_network (VRef 1) h2
          = (leak_id ["A"; "a"] (<[1 := [("A", VNum 1); ("a", VNum 1)]]> h2),
             inr (VRef 1))) as E
    by done.
  rewrite E in Hp. injection Hp as <- <-.
  assert (field (leak_id ["A"; "a"]
                   (<[1 := [("A", VNum 1); ("a", VNum 1)]]> h2)) (VRef 1)
            (toLowerCase "a") = VNum 2) as Hbad
    by (apply Hall; right; left).
  by vm_compute in Hbad.
Qed.

(** ** The theorems at concrete inputs *)

(** The pathways on [{"SKYBLOCK_MENU": 5}]: the supplied object gains
    [skyblock_menu], the fetched one is left alone and a fresh object
    [{"skyblock_menu": 5}] is built.  On [{"A": {price: 5}}] the fetched
    pathway builds [{"a": 5}]. *)
Lemma parsePrices_getPrices_pathways_witness :
  let flat : object := [("SKYBLOCK_MENU", VNum 5)] in
  let nested : object := [("A", VRef 2)] in
  let h : store := <[1 := flat]> ∅ in
  let h' : store := <[1 := nested]> (<[2 := [("price", VNum 5)]]> ∅) in
  (parsePrices (answered (VRef 1)) (VRef 1) h
   = (leak_id ["SKYBLOCK_MENU"]
        (<[1 := [("SKYBLOCK_MENU", VNum 5); ("skyblock_menu", VNum 5)]]> h),
      inr (VRef 1))
   ∧ getPrices (answered (VRef 1)) h
     = (<[2 := [("skyblock_menu", VNum 5)]]> h, inr (VRef 2)))
  ∧ (getPrices (answered (VRef 1)) h'
     = (<[3 := [("a", VNum 5)]]> h', inr (VRef 3))).
Proof.
  intros flat nested h h'. split.
  - destruct (parsePrices_getPrices_pathways (answered (VRef 1)) h 1
                "SKYBLOCK_MENU" (VNum 5) [] eq_refl eq_refl)
      as (_ & _ & Hmixed & _).
    destruct Hmixed as (Hparse & Hget & _);
      [reflexivity|vm_compute; congruence| |].
    + apply (bool_decide_unpack _). vm_compute. exact I.
    + split; [exact Hparse|exact Hget].
  - destruct (parsePrices_getPrices_pathways (answered (VRef 1)) h' 1 "A"
                (VRef 2) [] eq_refl eq_refl) as (_ & _ & _ & Hnested).
    destruct (Hnested eq_refl) as [_ Hextract].
    destruct Hextract as (Hget & _).
    + apply (bool_decide_unpack _). vm_compute. exact I.
    + repeat constructor. by eexists.
    + exact Hget.
Defined.

(** The empty object and the number 5 both end in a [TypeError]. *)
Lemma parsePrices_unkeyed_not_rejected_witness :
  parsePrices no_network (VRef 1) (<[1 := []]> ∅) = (<[1 := []]> ∅, inl TypeError)
  ∧ parsePrices no_network (VNum 5) ∅ = (∅, inl TypeError).
Proof.
  split.
  - apply (parsePrices_unkeyed_not_rejected no_network (VRef 1) (<[1 := []]> ∅));
      [right|..]; reflexivity.
  - apply (parsePrices_unkeyed_not_rejected no_network (VNum 5) ∅);
      [left|..]; reflexivity.
Defined.

Lemma parsePrices_lowercase_lookup_witness :
  let h : store := <[1 := [("SKYBLOCK_MENU", VNum 5)]]> ∅ in
  ∃ h', parsePrices no_network (VRef 1) h = (h', inr (VRef 1)) ∧
    ∀ k' v', (k', v') ∈ [("SKYBLOCK_MENU", VNum 5)] →
      obj_lookup (toLowerCase k') (props h' 1) = Some v'.
Proof.
  intros h.
  apply (parsePrices_lowercase_lookup no_network h 1 "SKYBLOCK_MENU" (VNum 5) []);
    [reflexivity|reflexivity|vm_compute; congruence|].
  apply (bool_decide_unpack _). vm_compute. exact I.
Defined.


Lemma parsePrices_idempotent_witness :
  let h : store :=
    <[1 := [("skyblock_menu", VNum 5); ("aspect_of_the_end", VNum 90000)]]> ∅ in
  parsePrices no_network (VRef 1) h = (h, inr (VRef 1)).
Proof.
  intros h.
  apply (parsePrices_idempotent no_network h 1
           [("skyblock_menu", VNum 5); ("aspect_of_the_end", VNum 90000)]);
    reflexivity.
Defined.

Lemma getItemNetworth_validation_witness :
  let h : store := <[1 := []]> ∅ in
  getItemNetworth no_network no_valuation (VRef 1) VUndefined h
  = (h, inl invalid_item).
Proof.
  intros h.
  destruct (getItemNetworth_validation no_network no_valuation (VRef 1)
              VUndefined h) as (_ & _ & Habsent).
  apply (Habsent 1); reflexivity.
Defined.

Lemma getPrices_fetch_failure_witness :
  getPrices (throw (AxiosError (Some 503%Z))) ∅
  = (∅, inl (PricesError "Failed to retrieve prices with status code 503"))
  ∧ getPrices no_network ∅
    = (∅, inl (PricesError "Failed to retrieve prices with status code Unknown")).
Proof.
  split.
  - apply (getPrices_fetch_failure _ ∅ ∅ (Some 503%Z)); [reflexivity|discriminate].
  - apply (getPrices_fetch_failure _ ∅ ∅ None); [reflexivity|discriminate].
Defined.

Lemma parsePrices_invalid_iff_witness :
  let h : store := <[1 := [("A", VRef 2)]]> (<[2 := [("price", VNum 5)]]> ∅) in
  (parsePrices no_network (VRef 1) h).2 = inl invalid_prices.
Proof.
  intros h.
  destruct (parsePrices_invalid_iff no_network (VRef 1) h) as [[_ Hthrow] _].
  apply Hthrow. split; reflexivity.
Defined.

Lemma parsePrices_extends_in_place_witness :
  let h : store := <[1 := [("SKYBLOCK_MENU", VNum 5); ("b", VNum 2)]]> ∅ in
  let extended : object :=
    [("SKYBLOCK_MENU", VNum 5); ("b", VNum 2); ("skyblock_menu", VNum 5)] in
  parsePrices no_network (VRef 1) h
  = (leak_id ["SKYBLOCK_MENU"; "b"] (<[1 := extended]> h), inr (VRef 1))
  ∧ ∀ k' v', (k', v') ∈ [("SKYBLOCK_MENU", VNum 5); ("b", VNum 2)] →
      obj_lookup k' extended = Some v' ∧
      obj_lookup (toLowerCase k') extended = Some v'.
Proof.
  intros h extended.
  apply (parsePrices_extends_in_place no_network h 1 "SKYBLOCK_MENU" (VNum 5)
           [("b", VNum 2)]); [reflexivity|reflexivity|vm_compute; congruence|].
  apply (bool_decide_unpack _). vm_compute. exact I.
Defined.

Lemma getItemNetworth_falsy_fields_rejected_witness :
  let h : store := <[1 := [("tag", VStr ""); ("exp", VNum 0)]]> ∅ in
  getItemNetworth no_network no_valuation (VRef 1) VUndefined h
  = (h, inl invalid_item).
Proof.
  intros h.
  apply (getItemNetworth_falsy_fields_rejected no_network no_valuation h 1
           [("tag", VStr ""); ("exp", VNum 0)] (VStr "") (VNum 0));
    reflexivity.
Defined.

(** ** The further properties at concrete inputs *)

Lemma entry_points_nullish_argument_witness :
  getNetworth no_network no_items no_total VUndefined (VNum 0) VUndefined ∅
  = (∅, inl TypeError)
  ∧ getItemNetworth no_network no_valuation VUndefined VUndefined ∅
    = (∅, inl invalid_item).
Proof.
  apply (entry_points_nullish_argument no_network no_items no_total
           no_valuation VUndefined (VNum 0) VUndefined ∅).
  reflexivity.
Defined.

Lemma getNetworth_prices_error_witness :
  let h : store :=
    <[1 := [("coin_purse", VNum 1)]]>
   (<[2 := [("prices", VRef 3)]]>
   (<[3 := [("A", VRef 4)]]>
   (<[4 := []]> ∅))) in
  getNetworth no_network no_items no_total (VRef 1) (VNum 0) (VRef 2) h
  = (h, inl invalid_prices).
Proof.
  intros h.
  apply (getNetworth_prices_error no_network no_items no_total (VRef 1)
           (VNum 0) (VRef 2) h h invalid_prices); reflexivity.
Defined.

Lemma getItemNetworth_without_prices_witness :
  let h : store :=
    <[1 := [("a", VNum 1)]]> (<[3 := [("tag", VRef 4)]]> (<[4 := []]> ∅)) in
  getItemNetworth (answered (VRef 1)) no_valuation (VRef 3) VUndefined h
  = (prices ← getPrices (answered (VRef 1)); no_valuation (VRef 3) prices) h.
Proof.
  intros h.
  apply (getItemNetworth_without_prices (answered (VRef 1)) no_valuation
           (VRef 3) VUndefined h); [left|]; reflexivity.
Defined.

Lemma supplied_catalog_no_fetch_witness :
  let h : store :=
    <[1 := [("a", VNum 1)]]>
   (<[2 := [("prices", VRef 1)]]>
   (<[3 := [("tag", VRef 4); ("coin_purse", VNum 7)]]>
   (<[4 := []]> ∅))) in
  getItemNetworth no_network no_valuation (VRef 3) (VRef 2) h
  = getItemNetworth (answered (VRef 4)) no_valuation (VRef 3) (VRef 2) h
  ∧ getNetworth no_network no_items no_total (VRef 3) (VNum 0) (VRef 2) h
    = getNetworth (answered (VRef 4)) no_items no_total (VRef 3) (VNum 0)
        (VRef 2) h.
Proof.
  intros h.
  apply (supplied_catalog_no_fetch no_network (answered (VRef 4)) no_items
           no_total no_valuation (VRef 3) (VRef 3) (VNum 0) (VRef 2) h).
  reflexivity.
Defined.

Lemma getPrices_failure_is_PricesError_witness :
  let e := PricesError "Failed to retrieve prices with status code 404" in
  e = PricesError "Failed to retrieve prices with status code Unknown"
  ∨ ∃ code, not_found (∅ : store) = (∅, inl (AxiosError (Some code))) ∧
            code ≠ 0%Z ∧
      e = PricesError ("Failed to retrieve prices with status code "
                       +:+ pretty code).
Proof.
  intros e.
  apply (getPrices_failure_is_PricesError not_found ∅ ∅ e).
  reflexivity.
Defined.

Lemma getPrices_unreadable_answer_witness :
  let h : store := <[1 := []]> ∅ in
  let h' : store := <[1 := [("A", VRef 2); ("b", VNull)]]> (<[2 := []]> ∅) in
  (getPrices (answered (VRef 1)) h).2
  = inl (PricesError "Failed to retrieve prices with status code Unknown")
  ∧ (getPrices (answered (VRef 1)) h').2
    = inl (PricesError "Failed to retrieve prices with status code Unknown").
Proof.
  intros h h'. split.
  - apply (getPrices_unreadable_answer (answered (VRef 1)) h h (VRef 1));
      [reflexivity|]. right. left. reflexivity.
  - apply (getPrices_unreadable_answer (answered (VRef 1)) h' h' (VRef 1));
      [reflexivity|]. right. right. split; [reflexivity|].
    apply Exists_cons. right. apply Exists_cons. by left.
Defined.

Lemma getPrices_frame_witness :
  let h : store :=
    <[1 := [("A", VRef 2)]]> (<[2 := [("price", VNum 5)]]> ∅) in
  (getPrices (answered (VRef 1)) h).1 !! 1 = Some [("A", VRef 2)].
Proof.
  intros h.
  apply (getPrices_frame (answered (VRef 1)) h h (inr (VRef 1)) 1);
    reflexivity.
Defined.

Lemma getPrices_keys_lowercase_witness :
  let h : store := <[1 := [("SKYBLOCK_MENU", VNum 5); ("Hyperion", VNum 9)]]> ∅ in
  let built : object := [("skyblock_menu", VNum 5); ("hyperion", VNum 9)] in
  ∃ l', VRef 2 = VRef l' ∧ h !! l' = None ∧
    Forall (λ key, toLowerCase key = key) (props (<[2 := built]> h) l').*1.
Proof.
  intros h built.
  apply (getPrices_keys_lowercase (answered (VRef 1)) h h 1 "SKYBLOCK_MENU"
           (VNum 5) [("Hyperion", VNum 9)] (<[2 := built]> h) (VRef 2));
    [reflexivity|reflexivity|right; vm_compute; congruence|reflexivity].
Defined.

Lemma getPrices_then_parsePrices_witness :
  let h : store := <[1 := [("SKYBLOCK_MENU", VNum 5); ("Hyperion", VNum 9)]]> ∅ in
  ∃ h' c, getPrices (answered (VRef 1)) h = (h', inr c) ∧
    ∀ fetch, parsePrices fetch c h' = (h', inr c).
Proof.
  intros h.
  apply (getPrices_then_parsePrices (answered (VRef 1)) h h 1 "SKYBLOCK_MENU"
           (VNum 5) [("Hyperion", VNum 9)]); [reflexivity|reflexivity|].
  repeat constructor; vm_compute; congruence.
Defined.

Lemma parsePrices_lowercase_lookup_descends_witness :
  let catalog : object := [("A", VNum 1); ("a", VNum 2)] in
  let h : store := <[1 := catalog]> ∅ in
  ∃ h', parsePrices no_network (VRef 1) h = (h', inr (VRef 1)) ∧
    ∀ key, key ∈ catalog.*1 →
      ∃ k0 v, obj_lookup (toLowerCase key) (props h' 1) = Some v ∧
              (k0, v) ∈ catalog ∧ toLowerCase k0 = toLowerCase key.
Proof.
  intros catalog h.
  apply (parsePrices_lowercase_lookup_descends no_network h 1 "A" (VNum 1)
           [("a", VNum 2)]);
    [reflexivity|reflexivity|vm_compute; congruence|].
  repeat constructor; vm_compute; congruence.
Defined.

Lemma getPrices_last_write_wins_witness :
  let h : store := <[1 := [("Ab", VNum 1); ("aB", VNum 2); ("c", VNum 3)]]> ∅ in
  ∃ h' l', getPrices (answered (VRef 1)) h = (h', inr (VRef l')) ∧
    obj_lookup (toLowerCase "aB") (props h' l') = Some (VNum 2).
Proof.
  intros h.
  apply (getPrices_last_write_wins (answered (VRef 1)) h h 1 "Ab" (VNum 1)
           [("Ab", VNum 1)] "aB" (VNum 2) [("c", VNum 3)]);
    try reflexivity; try (vm_compute; congruence).
  apply (bool_decide_unpack _). vm_compute. exact I.
Defined.

Lemma parsePrices_second_pass_witness :
  let h : store := <[1 := [("SKYBLOCK_MENU", VNum 5)]]> ∅ in
  let extended : object :=
    [("SKYBLOCK_MENU", VNum 5); ("skyblock_menu", VNum 5)] in
  ∃ h' h'',
    parsePrices no_network (VRef 1) h = (h', inr (VRef 1)) ∧
    objects h' ≠ objects h ∧
    parsePrices no_network (VRef 1) h' = (h'', inr (VRef 1)) ∧
    objects h'' = objects h' ∧
    ∃ key, last extended.*1 = Some key ∧
           globals h'' = <["id" := VStr key]> (globals h').
Proof.
  intros h extended.
  apply (parsePrices_second_pass no_network h 1 "SKYBLOCK_MENU" (VNum 5) []);
    [reflexivity|reflexivity|vm_compute; congruence|].
  apply (bool_decide_unpack _). vm_compute. exact I.
Defined.

Lemma getPrices_missing_price_undefined_witness :
  let h : store :=
    <[1 := [("A", VRef 2); ("B", VNum 7)]]> (<[2 := [("price", VNum 5)]]> ∅) in
  ∃ h' l', getPrices (answered (VRef 1)) h = (h', inr (VRef l')) ∧
    obj_lookup (toLowerCase "B") (props h' l') = Some VUndefined.
Proof.
  intros h.
  apply (getPrices_missing_price_undefined (answered (VRef 1)) h h 1 "A"
           (VRef 2) [("B", VNum 7)] "B" (VNum 7));
    try reflexivity.
  - apply (bool_decide_unpack _). vm_compute. exact I.
  - repeat constructor. by eexists.
  - right. by left.
Defined.

Lemma string_catalog_passes_through_witness :
  parsePrices no_network (VStr "abc") ∅ = (∅, inr (VStr "abc"))
  ∧ getPrices (answered (VStr "abc")) ∅ = (∅, inr (VStr "abc")).
Proof.
  destruct (string_catalog_passes_through (answered (VStr "abc")) "abc" ∅ ∅)
    as [Hparse Hget]; [done|].
  split; [exact Hparse|]. by apply Hget.
Defined.
